(** * AWS_BDA: the document-processing pipeline, embedded and verified

    A shallow embedding of the parts of the repository that decide its
    specification's testable properties:

    - [output]            src/bda_pipeline/output.py  (read-back, CSV)
    - [utils]             utils.py                    (poller, extraction,
                                                       configuration)
    - [process_documents] process_documents.py        (worker, batch, export)

    Python values are [Py.pyval]; text is a byte string (UTF-8); a dict is an
    association list with unique keys in insertion order, the order in which
    Python keeps them and a data frame takes its columns from them;
    exceptions are values of an error type and a function that may raise
    returns a [result]; the wall clock is a number of ticks; logger calls
    are recorded where a property speaks of them (the poller). *)

From Stdlib Require Import ZArith List String Ascii Bool Lia.
From Stdlib Require Import DecimalString Floats Uint63 Permutation.
Import ListNotations.

Local Open Scope string_scope.
Local Open Scope Z_scope.
Local Open Scope list_scope.

(** ** Raising computations *)

(** What a call that may raise produces: its value, or the exception. *)
Inductive result (E A : Type) : Type :=
| Ok (a : A)
| Raise (e : E).

Arguments Ok {E A} a.
Arguments Raise {E A} e.

Definition bind {E A B : Type} (m : result E A) (k : A -> result E B)
  : result E B :=
  match m with
  | Ok a => k a
  | Raise e => Raise e
  end.

Notation "x <- m ;; k" := (bind m (fun x => k))
  (at level 61, m at next level, right associativity).

(** ** Python values and the builtins the sources use *)

Module Py.

(** The objects that reach the pipeline: what [json.loads] and boto3 produce.
    A float is carried as the number literal it was decoded from ([NaN],
    [Infinity] and [-Infinity] included). *)
#[warnings="-register-all"]
Inductive pyval : Type :=
| PNone
| PBool (b : bool)
| PInt (z : Z)
| PFloat (lit : string)
| PStr (s : string)
| PList (items : list pyval)
| PDict (items : list (string * pyval)).

Definition dict : Type := list (string * pyval).

(** [d.get(k)] *)
Fixpoint dict_get (d : dict) (k : string) : option pyval :=
  match d with
  | [] => None
  | (k', v) :: d' => if String.eqb k' k then Some v else dict_get d' k
  end.

(** [k in d] *)
Definition dict_has (d : dict) (k : string) : bool :=
  match dict_get d k with Some _ => true | None => false end.

(** [d[k] = v]: an existing key keeps its place, a new one goes last. *)
Fixpoint dict_set (d : dict) (k : string) (v : pyval) : dict :=
  match d with
  | [] => [(k, v)]
  | (k', v') :: d' =>
      if String.eqb k' k then (k', v) :: d' else (k', v') :: dict_set d' k v
  end.

(** [d.get(k, default)] *)
Definition dict_get_default (d : dict) (k : string) (default : pyval)
  : pyval :=
  match dict_get d k with Some v => v | None => default end.

(** [str(n)] for an int. *)
Definition str_int (z : Z) : string := NilEmpty.string_of_int (Z.to_int z).

(** [type(v).__name__] *)
Definition type_name (v : pyval) : string :=
  match v with
  | PNone => "NoneType"
  | PBool _ => "bool"
  | PInt _ => "int"
  | PFloat _ => "float"
  | PStr _ => "str"
  | PList _ => "list"
  | PDict _ => "dict"
  end.

(** [sep.join(parts)] *)
Fixpoint join (sep : string) (parts : list string) : string :=
  match parts with
  | [] => EmptyString
  | [p] => p
  | p :: rest => (p ++ sep ++ join sep rest)%string
  end.

(** Truth value of a string: [bool(s)]. *)
Definition nonempty (s : string) : bool :=
  match s with EmptyString => false | String _ _ => true end.

(** [s.startswith(p)] *)
Definition startswith (p s : string) : bool := String.prefix p s.

(** [s.endswith(p)] *)
Definition endswith (p s : string) : bool :=
  let n := String.length s in
  let m := String.length p in
  (m <=? n)%nat && String.eqb (String.substring (n - m) m s) p.

(** [s.split(sep, 1)] for a one-character separator: the text before the
    first separator and, when there is one, the text after it. *)
Fixpoint split_once (sep : ascii) (s : string) : string * option string :=
  match s with
  | EmptyString => (EmptyString, None)
  | String c rest =>
      if Ascii.eqb c sep then (EmptyString, Some rest)
      else let '(a, b) := split_once sep rest in (String c a, b)
  end.

(** [s.split(sep)[-1]]: the text after the last separator. *)
Fixpoint last_segment_from (sep : ascii) (acc s : string) : string :=
  match s with
  | EmptyString => acc
  | String c rest =>
      if Ascii.eqb c sep then last_segment_from sep EmptyString rest
      else last_segment_from sep (acc ++ String c EmptyString)%string rest
  end.

Definition last_segment (sep : ascii) (s : string) : string :=
  last_segment_from sep EmptyString s.

(** [s.rsplit(sep, 1)] for a one-character separator: the text before the
    last separator and, when there is one, the text after it. *)
Fixpoint rsplit_once (sep : ascii) (s : string) : string * option string :=
  match s with
  | EmptyString => (EmptyString, None)
  | String c rest =>
      match rsplit_once sep rest with
      | (a, Some b) => (String c a, Some b)
      | (a, None) =>
          if Ascii.eqb c sep then (EmptyString, Some a) else (String c a, None)
      end
  end.

(** [s.rstrip(c)] for one character. *)
Fixpoint rstrip (c : ascii) (s : string) : string :=
  match s with
  | EmptyString => EmptyString
  | String a rest =>
      match rstrip c rest with
      | EmptyString =>
          if Ascii.eqb a c then EmptyString else String a EmptyString
      | String _ _ as kept => String a kept
      end
  end.

(** [s.split(sep)] for a one-character separator. *)
Fixpoint split_all (sep : ascii) (s : string) : list string :=
  match s with
  | EmptyString => [EmptyString]
  | String c rest =>
      if Ascii.eqb c sep then EmptyString :: split_all sep rest
      else
        match split_all sep rest with
        | head :: tail => String c head :: tail
        | [] => [String c EmptyString]
        end
  end.

(** [c in s] for one character. *)
Fixpoint contains (c : ascii) (s : string) : bool :=
  match s with
  | EmptyString => false
  | String a rest => Ascii.eqb a c || contains c rest
  end.

(** A [str] of the interpreter is held as the bytes of its UTF-8 encoding,
    a lone surrogate (which an escape of a JSON text can give) in the
    three-byte form.  [utf8_valid] tells the bytes [decode("utf-8")]
    accepts: well-formed UTF-8, with no surrogate, no overlong form and
    nothing above U+10FFFF. *)
Definition byte_in (lo hi : N) (c : ascii) : bool :=
  ((lo <=? N_of_ascii c) && (N_of_ascii c <=? hi))%N.

Fixpoint utf8_valid (s : string) : bool :=
  match s with
  | EmptyString => true
  | String a r1 =>
      let n := N_of_ascii a in
      if (n <? 128)%N then utf8_valid r1
      else if byte_in 194 223 a then
        match r1 with
        | String b r2 => byte_in 128 191 b && utf8_valid r2
        | _ => false
        end
      else if byte_in 224 239 a then
        match r1 with
        | String b (String c r3) =>
            byte_in (if (n =? 224)%N then 160 else 128)
              (if (n =? 237)%N then 159 else 191) b
            && byte_in 128 191 c && utf8_valid r3
        | _ => false
        end
      else if byte_in 240 244 a then
        match r1 with
        | String b (String c (String d r4)) =>
            byte_in (if (n =? 240)%N then 144 else 128)
              (if (n =? 244)%N then 143 else 191) b
            && byte_in 128 191 c && byte_in 128 191 d && utf8_valid r4
        | _ => false
        end
      else false
  end.

(** [s.encode("utf-8")] goes through: the [str] has no lone surrogate. *)
Definition encodable (s : string) : bool := utf8_valid s.

Section Str.

(** Python's [repr] of floats, lists and dicts, which [str] falls back on.
    It belongs to the interpreter, not to the repository, and no property
    below depends on what it prints. *)
Variable py_repr : pyval -> string.

(** [str(v)] *)
Definition str (v : pyval) : string :=
  match v with
  | PNone => "None"
  | PBool true => "True"
  | PBool false => "False"
  | PInt z => str_int z
  | PStr s => s
  | PFloat _ | PList _ | PDict _ => py_repr v
  end.

End Str.

End Py.

(** ** [json.loads]

    The decoder of Python's [json] module on the standard settings: the
    JSON grammar, the constants [NaN], [Infinity] and [-Infinity], strict
    strings (no raw control characters), and a later duplicate key replacing
    the earlier value.  [None] stands for [JSONDecodeError].  The limits of
    the interpreter (recursion depth, digits of an int) are not modelled. *)

Module Json.
Import Py.

Definition dquote : ascii := "034"%char.
Definition backslash : ascii := "092"%char.

Definition is_ws (c : ascii) : bool :=
  let n := nat_of_ascii c in
  ((n =? 32) || (n =? 9) || (n =? 10) || (n =? 13))%nat.

Fixpoint skip_ws (s : string) : string :=
  match s with
  | EmptyString => s
  | String c rest => if is_ws c then skip_ws rest else s
  end.

Definition is_digit (c : ascii) : bool :=
  let n := nat_of_ascii c in ((48 <=? n) && (n <=? 57))%nat.

Fixpoint span_digits (s : string) : string * string :=
  match s with
  | EmptyString => (EmptyString, EmptyString)
  | String c rest =>
      if is_digit c
      then let '(d, r) := span_digits rest in (String c d, r)
      else (EmptyString, s)
  end.

Fixpoint int_of_digits (acc : Z) (s : string) : Z :=
  match s with
  | EmptyString => acc
  | String c rest =>
      int_of_digits (10 * acc + Z.of_nat (nat_of_ascii c - 48)) rest
  end.

(** The integer part: [0], or a nonzero digit and the digits after it. *)
Definition scan_int_part (s : string) : option (string * string) :=
  match s with
  | EmptyString => None
  | String c rest =>
      if Ascii.eqb c "0" then Some (String c EmptyString, rest)
      else if is_digit c then Some (span_digits s)
      else None
  end.

(** A fraction is read only when a digit follows the point. *)
Definition scan_frac (s : string) : string * string :=
  match s with
  | String c rest =>
      if Ascii.eqb c "." then
        match span_digits rest with
        | (EmptyString, _) => (EmptyString, s)
        | (d, r) => (String c d, r)
        end
      else (EmptyString, s)
  | EmptyString => (EmptyString, s)
  end.

(** An exponent is read only when a digit follows the optional sign. *)
Definition scan_exp (s : string) : string * string :=
  match s with
  | String c rest =>
      if Ascii.eqb c "e" || Ascii.eqb c "E" then
        let '(sign, after) :=
          match rest with
          | String g rest' =>
              if Ascii.eqb g "+" || Ascii.eqb g "-"
              then (String g EmptyString, rest')
              else (EmptyString, rest)
          | EmptyString => (EmptyString, rest)
          end in
        match span_digits after with
        | (EmptyString, _) => (EmptyString, s)
        | (d, r) => (String c (sign ++ d), r)
        end
      else (EmptyString, s)
  | EmptyString => (EmptyString, s)
  end.

Definition scan_number (s : string) : option (pyval * string) :=
  let '(neg, s1) :=
    match s with
    | String c rest => if Ascii.eqb c "-" then (true, rest) else (false, s)
    | EmptyString => (false, s)
    end in
  match scan_int_part s1 with
  | None => None
  | Some (ip, s2) =>
      let '(fp, s3) := scan_frac s2 in
      let '(ep, s4) := scan_exp s3 in
      if nonempty fp || nonempty ep
      then Some (PFloat ((if neg then "-" else "") ++ ip ++ fp ++ ep), s4)
      else Some (PInt (if neg then - int_of_digits 0 ip else int_of_digits 0 ip), s4)
  end.

Definition hex_val (c : ascii) : option N :=
  let n := N_of_ascii c in
  if ((48 <=? n) && (n <=? 57))%N then Some (n - 48)%N
  else if ((97 <=? n) && (n <=? 102))%N then Some (n - 87)%N
  else if ((65 <=? n) && (n <=? 70))%N then Some (n - 55)%N
  else None.

(** Four hexadecimal digits, as a code unit. *)
Definition take_hex4 (s : string) : option (N * string) :=
  match s with
  | String a (String b (String c (String d rest))) =>
      match hex_val a, hex_val b, hex_val c, hex_val d with
      | Some x, Some y, Some z, Some w =>
          Some ((((x * 16 + y) * 16 + z) * 16 + w)%N, rest)
      | _, _, _, _ => None
      end
  | _ => None
  end.

(** A code point as UTF-8 bytes (a lone surrogate takes the three-byte form). *)
Definition utf8 (cp : N) : list ascii :=
  let byte (n : N) := ascii_of_N n in
  let cont (n : N) := ascii_of_N (128 + n mod 64)%N in
  if (cp <? 128)%N then [byte cp]
  else if (cp <? 2048)%N then [byte (192 + cp / 64)%N; cont cp]
  else if (cp <? 65536)%N then
    [byte (224 + cp / 4096)%N; cont (cp / 64)%N; cont cp]
  else
    [byte (240 + cp / 262144)%N; cont (cp / 4096)%N; cont (cp / 64)%N; cont cp].

Definition is_high_surrogate (u : N) : bool := ((55296 <=? u) && (u <=? 56319))%N.
Definition is_low_surrogate (u : N) : bool := ((56320 <=? u) && (u <=? 57343))%N.

(** After [\uXXXX] with value [u]: the code point, joined with a following
    low surrogate escape when [u] is a high surrogate. *)
Definition scan_unicode_tail (u : N) (rest : string) : option (N * string) :=
  if is_high_surrogate u && (7 <=? String.length rest)%nat then
    match rest with
    | String b (String c rest') =>
        if Ascii.eqb b backslash && Ascii.eqb c "u" then
          match take_hex4 rest' with
          | None => None
          | Some (u2, rest'') =>
              if is_low_surrogate u2
              then Some ((65536 + (u - 55296) * 1024 + (u2 - 56320))%N, rest'')
              else Some (u, rest)
          end
        else Some (u, rest)
    | _ => Some (u, rest)
    end
  else Some (u, rest).

Definition simple_escape (c : ascii) : option ascii :=
  if Ascii.eqb c dquote then Some dquote
  else if Ascii.eqb c backslash then Some backslash
  else if Ascii.eqb c "/" then Some "/"%char
  else if Ascii.eqb c "b" then Some "008"%char
  else if Ascii.eqb c "f" then Some "012"%char
  else if Ascii.eqb c "n" then Some "010"%char
  else if Ascii.eqb c "r" then Some "013"%char
  else if Ascii.eqb c "t" then Some "009"%char
  else None.

(** The text of a string after its opening quote; [acc] holds the decoded
    bytes so far, last first. *)
Fixpoint scanstring (fuel : nat) (s : string) (acc : list ascii)
  : option (string * string) :=
  match fuel with
  | O => None
  | S fuel' =>
      match s with
      | EmptyString => None
      | String c rest =>
          if Ascii.eqb c dquote then Some (string_of_list_ascii (rev acc), rest)
          else if Ascii.eqb c backslash then
            match rest with
            | EmptyString => None
            | String e rest' =>
                if Ascii.eqb e "u" then
                  match take_hex4 rest' with
                  | None => None
                  | Some (u, r) =>
                      match scan_unicode_tail u r with
                      | None => None
                      | Some (cp, r') => scanstring fuel' r' (rev (utf8 cp) ++ acc)
                      end
                  end
                else
                  match simple_escape e with
                  | None => None
                  | Some b => scanstring fuel' rest' (b :: acc)
                  end
            end
          else if (nat_of_ascii c <? 32)%nat then None
          else scanstring fuel' rest (c :: acc)
      end
  end.

Definition scan_constant (s : string) : option (pyval * string) :=
  let try (lit : string) (v : pyval) :=
    if String.prefix lit s
    then Some (v, String.substring (String.length lit) (String.length s - String.length lit) s)
    else None in
  match try "null" PNone with Some r => Some r | None =>
  match try "true" (PBool true) with Some r => Some r | None =>
  match try "false" (PBool false) with Some r => Some r | None =>
  match try "NaN" (PFloat "NaN") with Some r => Some r | None =>
  match try "Infinity" (PFloat "Infinity") with Some r => Some r | None =>
  try "-Infinity" (PFloat "-Infinity")
  end end end end end.

(** One value at the head of [s], and the text after it. *)
Fixpoint scan_once (fuel : nat) (s : string) : option (pyval * string) :=
  match fuel with
  | O => None
  | S fuel' =>
      match s with
      | EmptyString => None
      | String c rest =>
          if Ascii.eqb c dquote then
            match scanstring (S (String.length rest)) rest [] with
            | Some (t, r) => Some (PStr t, r)
            | None => None
            end
          else if Ascii.eqb c "{" then
            match skip_ws rest with
            | String c' r' =>
                if Ascii.eqb c' "}" then Some (PDict [], r')
                else scan_members fuel' (skip_ws rest) []
            | EmptyString => None
            end
          else if Ascii.eqb c "[" then
            match skip_ws rest with
            | String c' r' =>
                if Ascii.eqb c' "]" then Some (PList [], r')
                else scan_items fuel' (skip_ws rest) []
            | EmptyString => None
            end
          else
            match scan_constant s with
            | Some r => Some r
            | None => scan_number s
            end
      end
  end

(** The elements of an array from the head of one of them; [acc] holds the
    elements read so far, last first. *)
with scan_items (fuel : nat) (s : string) (acc : list pyval)
  : option (pyval * string) :=
  match fuel with
  | O => None
  | S fuel' =>
      match scan_once fuel' s with
      | None => None
      | Some (v, r) =>
          match skip_ws r with
          | String c r' =>
              if Ascii.eqb c "]" then Some (PList (rev (v :: acc)), r')
              else if Ascii.eqb c "," then scan_items fuel' (skip_ws r') (v :: acc)
              else None
          | EmptyString => None
          end
      end
  end

(** The members of an object from the head of a key. *)
with scan_members (fuel : nat) (s : string) (acc : dict)
  : option (pyval * string) :=
  match fuel with
  | O => None
  | S fuel' =>
      match s with
      | EmptyString => None
      | String q rest =>
          if Ascii.eqb q dquote then
            match scanstring (S (String.length rest)) rest [] with
            | None => None
            | Some (k, r) =>
                match skip_ws r with
                | String c r' =>
                    if Ascii.eqb c ":" then
                      match scan_once fuel' (skip_ws r') with
                      | None => None
                      | Some (v, r2) =>
                          match skip_ws r2 with
                          | String c2 r3 =>
                              if Ascii.eqb c2 "}"
                              then Some (PDict (dict_set acc k v), r3)
                              else if Ascii.eqb c2 ","
                              then scan_members fuel' (skip_ws r3) (dict_set acc k v)
                              else None
                          | EmptyString => None
                          end
                      end
                    else None
                | EmptyString => None
                end
            end
          else None
      end
  end.

(** [json.loads(s)]: one value between optional blanks, and nothing else. *)
Definition loads (s : string) : option pyval :=
  match scan_once (2 * String.length s + 2) (skip_ws s) with
  | Some (v, r) =>
      match skip_ws r with
      | EmptyString => Some v
      | String _ _ => None
      end
  | None => None
  end.

End Json.

(** ** src/bda_pipeline/output.py *)

Module output.
Import Py.

(** The exceptions of the read-back path.  [JSONDecodeError],
    [UnicodeDecodeError] and [UnicodeEncodeError] are [ValueError]s in
    Python; their messages are not modelled. *)
Inductive exn : Type :=
| ValueError (msg : string)
| JSONDecodeError
| UnicodeDecodeError
| UnicodeEncodeError
| ClientError (msg : string).

(** An S3 client, as far as this module uses one: per bucket, the objects
    in listing order, each a key and the bytes of its body. *)
Definition s3_client : Type := string -> list (string * string).

(** [body.decode("utf-8")] *)
Definition decode (body : string) : result exn string :=
  if utf8_valid body then Ok body else Raise UnicodeDecodeError.

(** The keys of all pages of [list_objects_v2(Bucket, Prefix)]. *)
Definition list_objects_v2 (s3 : s3_client) (bucket prefix : string)
  : list string :=
  map fst (filter (fun o => startswith prefix (fst o)) (s3 bucket)).

(** [get_object(Bucket, Key)["Body"]] *)
Definition get_object (s3 : s3_client) (bucket key : string)
  : result exn string :=
  match find (fun o => String.eqb (fst o) key) (s3 bucket) with
  | Some o => Ok (snd o)
  | None => Raise (ClientError "NoSuchKey")
  end.

(** [Body.iter_lines()]: the body cut at line ends (LF, CR LF, CR), line
    ends dropped; [acc] holds the current line, last byte first. *)
Fixpoint iter_lines_from (acc : list ascii) (body : string) : list string :=
  let line := string_of_list_ascii (rev acc) in
  match body with
  | EmptyString => match acc with [] => [] | _ :: _ => [line] end
  | String c rest =>
      if Ascii.eqb c "010" then line :: iter_lines_from [] rest
      else if Ascii.eqb c "013" then
        match rest with
        | String c' rest' =>
            if Ascii.eqb c' "010" then line :: iter_lines_from [] rest'
            else line :: iter_lines_from [] rest
        | EmptyString => line :: iter_lines_from [] rest
        end
      else iter_lines_from (c :: acc) rest
  end.

Definition iter_lines (body : string) : list string := iter_lines_from [] body.

Definition FIELD_JOIN_RULES : list (string * string) := [("LogoOnForm", ",")].

(** [FIELD_JOIN_RULES.get(field_name, ", ")] *)
Definition join_rule (field_name : option string) : string :=
  match field_name with
  | None => ", "
  | Some f =>
      match find (fun r => String.eqb (fst r) f) FIELD_JOIN_RULES with
      | Some r => snd r
      | None => ", "
      end
  end.

Section Normalize.

Variable py_repr : pyval -> string.

Fixpoint _normalize_value (value : pyval) (field_name : option string)
  : string :=
  match value with
  | PNone => EmptyString
  | PList items =>
      let joiner := join_rule field_name in
      let normalized_items :=
        (fix loop (items : list pyval) : list string :=
           match items with
           | [] => []
           | item :: rest =>
               let normalized := _normalize_value item field_name in
               if nonempty normalized then normalized :: loop rest
               else loop rest
           end) items in
      join joiner normalized_items
  | _ => str py_repr value
  end.

Definition _normalize_record (record : dict) : list (string * string) :=
  map (fun kv => (fst kv, _normalize_value (snd kv) (Some (fst kv)))) record.

Definition _split_s3_uri (uri : string) : result exn (string * string) :=
  if negb (startswith "s3://" uri) then
    Raise (ValueError ("Invalid S3 URI: " ++ uri))
  else
    let without_scheme :=
      String.substring 5 (String.length uri - 5) uri in
    let '(bucket, rest) := split_once "/" without_scheme in
    Ok (bucket, match rest with Some prefix => prefix | None => EmptyString end).

(** The records of one [.jsonl] object: every non-empty line is decoded,
    a line that is a dict gives a record, and the first line that does not
    decode, as UTF-8 or as JSON, raises. *)
Fixpoint _load_json_lines_from (lines : list string)
  : result exn (list (list (string * string))) :=
  match lines with
  | [] => Ok []
  | line :: rest =>
      if negb (nonempty line) then _load_json_lines_from rest
      else
        text <- decode line ;;
        match Json.loads text with
        | None => Raise JSONDecodeError
        | Some data =>
            more <- _load_json_lines_from rest ;;
            match data with
            | PDict d => Ok (_normalize_record d :: more)
            | _ => Ok more
            end
        end
  end.

Definition _load_json_lines (s3 : s3_client) (bucket key : string)
  : result exn (list (list (string * string))) :=
  body <- get_object s3 bucket key ;;
  _load_json_lines_from (iter_lines body).

Definition _load_json_object (s3 : s3_client) (bucket key : string)
  : result exn pyval :=
  body <- get_object s3 bucket key ;;
  text <- decode body ;;
  match Json.loads text with
  | Some document => Ok document
  | None => Raise JSONDecodeError
  end.

(** The dict items of a decoded list, normalized. *)
Fixpoint records_of_items (items : list pyval) : list (list (string * string)) :=
  match items with
  | [] => []
  | PDict d :: rest => _normalize_record d :: records_of_items rest
  | _ :: rest => records_of_items rest
  end.

(** The records one listed key yields. *)
Definition records_of_key (s3 : s3_client) (bucket key : string)
  : result exn (list (list (string * string))) :=
  if endswith ".jsonl" key then _load_json_lines s3 bucket key
  else if endswith ".json" key then
    document <- _load_json_object s3 bucket key ;;
    match document with
    | PList items => Ok (records_of_items items)
    | PDict d => Ok [_normalize_record d]
    | _ => Ok []
    end
  else Ok [].

Fixpoint records_of_keys (s3 : s3_client) (bucket : string) (keys : list string)
  : result exn (list (list (string * string))) :=
  match keys with
  | [] => Ok []
  | key :: rest =>
      here <- records_of_key s3 bucket key ;;
      more <- records_of_keys s3 bucket rest ;;
      Ok (here ++ more)
  end.

(** [list(self._iter_job_records(output_s3_uri))]: the generator run to its
    end, which is how [build_csv] consumes it. *)
Definition _iter_job_records (s3 : s3_client) (output_s3_uri : string)
  : result exn (list (list (string * string))) :=
  parts <- _split_s3_uri output_s3_uri ;;
  let '(bucket, prefix) := parts in
  records_of_keys s3 bucket (list_objects_v2 s3 bucket prefix).

(** [record.get(field, "")] *)
Definition record_get (record : list (string * string)) (field : string)
  : string :=
  match find (fun kv => String.eqb (fst kv) field) record with
  | Some kv => snd kv
  | None => EmptyString
  end.

(** The CSV file [build_csv] writes: the header line and the rows. *)
Record csv_file : Type := {
  csv_header : list string;
  csv_rows : list (list string)
}.

(** The writer: each line, the header first, is encoded as UTF-8 when it
    is written, and the first line with a cell that cannot be encoded
    raises.  The result is the lines that reached the file and the
    exception, if any. *)
Fixpoint write_lines (lines : list (list string))
  : list (list string) * option exn :=
  match lines with
  | [] => ([], None)
  | line :: rest =>
      if forallb encodable line then
        let '(written, raised) := write_lines rest in (line :: written, raised)
      else ([], Some UnicodeEncodeError)
  end.

(** [build_csv], in a directory that can be written to: the file is
    opened only when every record has been read, and the call returns only
    when every line has been written. *)
Definition build_csv (s3 : s3_client) (output_s3_uri : string)
  (fieldnames : list string) : result exn csv_file :=
  records <- _iter_job_records s3 output_s3_uri ;;
  let rows := map (fun record => map (record_get record) fieldnames) records in
  match snd (write_lines (fieldnames :: rows)) with
  | Some raised => Raise raised
  | None => Ok {| csv_header := fieldnames; csv_rows := rows |}
  end.

(** What the CSV file holds after [build_csv]: nothing when the file was
    never opened, else the lines written, the header first. *)
Definition csv_on_disk (s3 : s3_client) (output_s3_uri : string)
  (fieldnames : list string) : option (list (list string)) :=
  match _iter_job_records s3 output_s3_uri with
  | Raise _ => None
  | Ok records =>
      Some (fst (write_lines
                   (fieldnames
                    :: map (fun record => map (record_get record) fieldnames)
                         records)))
  end.

(** The end of [main] in src/bda_pipeline/main.py, once the blueprint and
    the job are done: the exit status, and the CSV file when [build_csv]
    returned.  Every exception of [build_csv] is one the [except] clause
    catches. *)
Definition main_after_job (s3 : s3_client) (output_s3_uri : string)
  (fieldnames : list string) : Z * option csv_file :=
  match build_csv s3 output_s3_uri fieldnames with
  | Ok file => (0, Some file)
  | Raise _ => (1, None)
  end.

End Normalize.

End output.

(** ** utils.py *)

Module utils.
Import Py.

(** The exceptions of the scripts; [exn_str] is [str(e)]. *)
Inductive exn : Type :=
| ClientError (msg : string)
| TimeoutError (msg : string)
| RuntimeError (msg : string)
| ValueError (msg : string)
| KeyError (key : string)
| AttributeError (msg : string)
| ZeroDivisionError (msg : string)
| OverflowError (msg : string)
| OtherError (msg : string).

Definition exn_str (e : exn) : string :=
  match e with
  | ClientError msg | TimeoutError msg | RuntimeError msg | ValueError msg
  | AttributeError msg | ZeroDivisionError msg | OverflowError msg
  | OtherError msg => msg
  | KeyError key => "'" ++ key ++ "'"
  end.

(** A logger call: the level and the message. *)
Inductive level : Type := DEBUG | INFO | WARNING | ERROR.

Definition log_entry : Type := (level * string)%type.

(** The response of [get_data_automation_status], by the keys the scripts
    read: [status], [error], the [s3Uri] of [outputConfiguration] (the outer
    option is the presence of [outputConfiguration]) and [output]. *)
Record response : Type := {
  status : option string;
  error : option string;
  outputConfiguration : option (option string);
  output : option pyval
}.

(** The remote service, the wall clock and the operating system as one
    job's poller meets them.  The clock counts [hz] ticks per second;
    [first_reading] ticks pass between the reading of [start_time] and the
    first reading in the loop; the k-th status query answers or raises
    [get_data_automation_status k], and [call_ticks k] ticks (at least one)
    pass from the clock reading before it to the moment the following sleep
    starts.  [sleep_refused k seconds] is the exception, if any, with which
    the operating system refuses the sleep after the k-th query, for a
    length the interpreter accepts (Linux refuses with [OSError] a sleep
    that would end more than 9223372036 seconds after boot). *)
Record service : Type := {
  hz : positive;
  first_reading : N;
  get_data_automation_status : nat -> result exn response;
  call_ticks : nat -> positive;
  sleep_refused : nat -> Z -> option exn
}.

(** The poller's state at the head of its loop: ticks elapsed since
    [start_time], the number of status queries issued, the clock reading
    ([elapsed]) under which each of them was issued, and the logger calls
    made. *)
Record poll_state : Type := {
  elapsed : Z;
  queries : nat;
  asked : list Z;
  log : list log_entry
}.

Definition start (svc : service) : poll_state :=
  {| elapsed := Z.of_N (first_reading svc); queries := 0; asked := [];
     log := [] |}.

Definition logged (st : poll_state) (l : level) (msg : string) : poll_state :=
  {| elapsed := elapsed st; queries := queries st; asked := asked st;
     log := log st ++ [(l, msg)] |}.

(** What [time.sleep(seconds)] raises for an int before it sleeps:
    [OverflowError] when the nanoseconds do not fit in 64 bits, [ValueError]
    for a negative length.  (The text of the [OverflowError] is that of
    CPython 3.11; it names the C type, whose name varies with the version of
    the interpreter.) *)
Definition sleep_error (seconds : Z) : option exn :=
  let ns := seconds * 10 ^ 9 in
  if (2 ^ 63 - 1 <? ns) || (ns <? - 2 ^ 63) then
    Some (OverflowError "timestamp too large to convert to C _PyTime_t")
  else if seconds <? 0 then
    Some (ValueError "sleep length must be non-negative")
  else None.

(** [time.sleep(seconds)] in the poll loop, after the last query issued:
    the exception of the interpreter or of the operating system, or the
    clock moved on by the length of the sleep. *)
Definition sleep (svc : service) (seconds : Z) (st : poll_state)
  : result exn poll_state :=
  match sleep_error seconds with
  | Some e => Raise e
  | None =>
      match sleep_refused svc (Nat.pred (queries st)) seconds with
      | Some e => Raise e
      | None =>
          Ok {| elapsed := elapsed st + seconds * Zpos (hz svc);
                queries := queries st; asked := asked st; log := log st |}
      end
  end.

(** One turn of the loop of [wait_for_job_completion]: the loop goes on in
    a new state, or the call ends by returning or raising. *)
Inductive turn : Type :=
| Continue (st : poll_state)
| Done (r : result exn response) (st : poll_state).

Definition after_sleep (svc : service) (poll_interval : Z) (st : poll_state)
  : turn :=
  match sleep svc poll_interval st with
  | Ok st' => Continue st'
  | Raise e => Done (Raise e) st
  end.

Definition poll_turn (svc : service) (invocation_arn : string)
  (poll_interval timeout : Z) (st : poll_state) : turn :=
  if timeout * Zpos (hz svc) <? elapsed st then
    Done (Raise (TimeoutError
                   ("Job processing exceeded timeout of " ++ str_int timeout
                    ++ " seconds")))
         (logged st ERROR ("Job " ++ invocation_arn ++ " timed out after "
                           ++ str_int timeout ++ " seconds"))
  else
    let k := queries st in
    let st1 := {| elapsed := elapsed st + Zpos (call_ticks svc k);
                  queries := S k; asked := asked st ++ [elapsed st];
                  log := log st |} in
    match get_data_automation_status svc k with
    | Ok response =>
        match status response with
        | Some s =>
            if String.eqb s "SUCCESS" then
              Done (Ok response)
                   (logged st1 DEBUG ("Job " ++ invocation_arn
                                      ++ " completed successfully"))
            else if String.eqb s "FAILED" then
              let error_msg :=
                match error response with
                | Some m => m
                | None => "Unknown error"
                end in
              Done (Raise (RuntimeError ("Job failed: " ++ error_msg)))
                   (logged st1 ERROR ("Job " ++ invocation_arn ++ " failed: "
                                      ++ error_msg))
            else if String.eqb s "IN_PROGRESS" || String.eqb s "PENDING" then
              after_sleep svc poll_interval
                (logged st1 DEBUG ("Job " ++ invocation_arn ++ " status: " ++ s
                                   ++ ", waiting..."))
            else
              after_sleep svc poll_interval
                (logged st1 WARNING ("Job " ++ invocation_arn
                                     ++ " has unknown status: " ++ s))
        | None =>
            after_sleep svc poll_interval
              (logged st1 WARNING ("Job " ++ invocation_arn
                                   ++ " has unknown status: None"))
        end
    | Raise (ClientError msg) =>
        after_sleep svc poll_interval
          (logged st1 ERROR ("Error checking job status: " ++ msg))
    | Raise e => Done (Raise e) st1
    end.

(** The [while True] loop, for at most [fuel] turns. *)
Fixpoint wait_loop (fuel : nat) (svc : service) (invocation_arn : string)
  (poll_interval timeout : Z) (st : poll_state)
  : option (result exn response * poll_state) :=
  match fuel with
  | O => None
  | S fuel' =>
      match poll_turn svc invocation_arn poll_interval timeout st with
      | Done r st' => Some (r, st')
      | Continue st' =>
          wait_loop fuel' svc invocation_arn poll_interval timeout st'
      end
  end.

(** Turns that always suffice from [st]: every turn that goes on moves the
    clock by at least one tick, and one past the timeout is the last. *)
Definition enough_turns (svc : service) (timeout : Z) (st : poll_state) : nat :=
  Z.to_nat (timeout * Zpos (hz svc) - elapsed st) + 2.

(** [wait_for_job_completion]: what the call returns or raises, and the
    poller's final state.  The loop ends within [enough_turns] turns
    ([wait_loop_ends] below), so the last case never applies. *)
Definition wait_for_job_completion (svc : service) (invocation_arn : string)
  (poll_interval timeout : Z) : result exn response * poll_state :=
  match wait_loop (enough_turns svc timeout (start svc)) svc invocation_arn
          poll_interval timeout (start svc) with
  | Some r => r
  | None => (Raise (OtherError "unreachable"), start svc)
  end.

Definition extraction_fields : list string :=
  ["SiteOnForm"; "NameOnForm"; "LogoOnForm"; "EmailOnForm"; "PhoneOnForm";
   "AddressOnForm"; "SignatureOnForm"; "LOB"; "State"; "Language"].

(** The body of the [try] of [extract_results_from_response]. *)
Definition extract_body (r : response) (document_key : string)
  : result exn dict :=
  let result :=
    [("document", PStr document_key); ("processing_status", PStr "success")] in
  let result :=
    match outputConfiguration r with
    | Some (Some uri) => dict_set result "output_s3_uri" (PStr uri)
    | _ => result
    end in
  match output r with
  | None => Ok result
  | Some output_data =>
      let output_data :=
        match output_data with
        | PStr text =>
            match Json.loads text with
            | Some parsed => parsed
            | None => output_data
            end
        | _ => output_data
        end in
      match output_data with
      | PDict d =>
          Ok (fold_left
                (fun res field =>
                   dict_set res field (dict_get_default d field (PStr "")))
                extraction_fields result)
      | other =>
          Raise (AttributeError ("'" ++ type_name other
                                 ++ "' object has no attribute 'get'"))
      end
  end.

Definition extract_results_from_response (r : response) (document_key : string)
  : dict :=
  match extract_body r document_key with
  | Ok result => result
  | Raise e =>
      [("document", PStr document_key); ("processing_status", PStr "error");
       ("error_message", PStr (exn_str e))]
  end.

(** The configuration file, by the sections and keys the scripts read.  A
    section that is [None] is absent from the file. *)
Record aws_section : Type := { region : option string }.
Record name_section : Type := { name : option string }.
Record processing_section : Type := {
  batch_size : Z;
  poll_interval : Z;
  timeout : Z
}.
Record s3_section : Type := { output_prefix : string }.
Record output_section : Type := { include_metadata : bool }.
Record config : Type := {
  aws : option aws_section;
  blueprint : option name_section;
  project : option name_section;
  s3 : option s3_section;
  processing : option processing_section;
  output_ : output_section
}.




(** [parse_s3_uri] *)
Definition parse_s3_uri (uri : string) : string * string :=
  let uri :=
    if startswith "s3://" uri
    then String.substring 5 (String.length uri - 5) uri
    else uri in
  let '(bucket, rest) := split_once "/" uri in
  (bucket, match rest with Some prefix => prefix | None => EmptyString end).

(** [generate_output_filename]; [timestamp] is
    [datetime.now().strftime('%Y%m%d_%H%M%S')]. *)
Definition generate_output_filename (timestamp base_name : string)
  (include_timestamp : bool) : string :=
  if include_timestamp then
    match rsplit_once "." base_name with
    | (stem, Some extension) => stem ++ "_" ++ timestamp ++ "." ++ extension
    | (_, None) => base_name ++ "_" ++ timestamp
    end
  else base_name.

(** What the paginator of [list_objects_v2] yields for a bucket and a
    prefix: the pages, each with the keys of its [Contents] when it has
    that entry, and the exception it raises after them, if any. *)
Record paginator : Type := {
  pages : list (option (list string));
  failure : option exn
}.

Section Listing.

(** [str.lower], which belongs to the interpreter. *)
Variable lower : string -> string.

(** The test of one key: its text after the last dot, lowered, is one of
    the supported formats. *)
Definition supported (supported_formats : list string) (key : string) : bool :=
  let extension := lower (last_segment "." key) in
  existsb (String.eqb extension) supported_formats.

(** The loop over the pages, appending to [documents]. *)
Fixpoint scan_pages (supported_formats : list string)
  (todo : list (option (list string))) (documents : list string)
  : list string :=
  match todo with
  | [] => documents
  | None :: rest => scan_pages supported_formats rest documents
  | Some contents :: rest =>
      scan_pages supported_formats rest
        (fold_left
           (fun found key =>
              if supported supported_formats key then found ++ [key] else found)
           contents documents)
  end.

(** [list_s3_documents]: an exception of the paginator is logged and
    raised again. *)
Definition list_s3_documents (p : paginator) (supported_formats : list string)
  : result exn (list string) :=
  match failure p with
  | Some e => Raise e
  | None => Ok (scan_pages supported_formats (pages p) [])
  end.

End Listing.

(** What a call of [retry_with_backoff] did: what it returned ([None] when
    the loop ran out without a call returning) or raised, how many times it
    called [func], and the lengths of its sleeps, in order. *)
Record retry_run (A : Type) : Type := {
  outcome : result exn (option A);
  calls : nat;
  sleeps : list Z
}.

Arguments outcome {A} r.
Arguments calls {A} r.
Arguments sleeps {A} r.

(** The loop of [retry_with_backoff] from [attempt], with [todo] attempts
    left of [range(max_retries)]; [func k] is what the k-th call of [func]
    returns or raises. *)
Fixpoint retry_from {A : Type} (func : nat -> result exn A)
  (max_retries delay : Z) (todo attempt : nat) (slept : list Z)
  : retry_run A :=
  match todo with
  | O => {| outcome := Ok None; calls := attempt; sleeps := slept |}
  | S todo' =>
      match func attempt with
      | Ok value =>
          {| outcome := Ok (Some value); calls := S attempt; sleeps := slept |}
      | Raise e =>
          if Z.of_nat attempt =? max_retries - 1 then
            {| outcome := Raise e; calls := S attempt; sleeps := slept |}
          else
            let wait_time := delay * 2 ^ Z.of_nat attempt in
            match sleep_error wait_time with
            | Some raised =>
                {| outcome := Raise raised; calls := S attempt;
                   sleeps := slept |}
            | None =>
                retry_from func max_retries delay todo' (S attempt)
                  (slept ++ [wait_time])
            end
      end
  end.

Definition retry_with_backoff {A : Type} (func : nat -> result exn A)
  (max_retries delay : Z) : retry_run A :=
  retry_from func max_retries delay (Z.to_nat max_retries) 0 [].

End utils.

(** ** process_documents.py *)

Module process_documents.
Import Py utils.

(** The response of [invoke_data_automation_async], by the key read. *)
Record submit_response : Type := { invocationArn : option string }.

(** The remote service as one submitted document meets it: what the
    submission answers or raises, and the job's status service. *)
Record job : Type := {
  invoke_data_automation_async : result exn submit_response;
  svc : service
}.

(** The dict [invoke_document_processing] returns, by its [status]. *)
Inductive invocation : Type :=
| Submitted (invocationArn s3_uri : string)
| SubmitError (s3_uri error : string).

Definition invoke_document_processing (j : job) (s3_uri : string)
  : result exn invocation :=
  match invoke_data_automation_async j with
  | Ok response =>
      match invocationArn response with
      | Some arn => Ok (Submitted arn s3_uri)
      | None => Raise (KeyError "invocationArn")
      end
  | Raise (ClientError msg) => Ok (SubmitError s3_uri msg)
  | Raise e => Raise e
  end.

(** The error record of a document. *)
Definition error_record (document s3_uri error_message : string) : dict :=
  [("document", PStr document); ("s3_uri", PStr s3_uri);
   ("processing_status", PStr "error");
   ("error_message", PStr error_message)].

(** What one worker did: the dict it returns, and the final state of the
    poller when [wait_for_job_completion] was called. *)
Record worker_run : Type := {
  returned : dict;
  polled : option poll_state
}.

Definition process_single_document (j : job) (bucket key : string)
  (cfg : config) : worker_run :=
  let s3_uri := ("s3://" ++ bucket ++ "/" ++ key)%string in
  let document_name := last_segment "/" key in
  match invoke_document_processing j s3_uri with
  | Raise e =>
      {| returned := error_record document_name s3_uri (exn_str e);
         polled := None |}
  | Ok (SubmitError _ error) =>
      {| returned := error_record document_name s3_uri error;
         polled := None |}
  | Ok (Submitted invocation_arn _) =>
      match processing cfg with
      | None =>
          {| returned :=
               error_record document_name s3_uri
                 (exn_str (KeyError "processing"));
             polled := None |}
      | Some p =>
          match wait_for_job_completion (svc j) invocation_arn
                  (poll_interval p) (timeout p) with
          | (Raise e, st) =>
              {| returned := error_record document_name s3_uri (exn_str e);
                 polled := Some st |}
          | (Ok result, st) =>
              let extracted_data :=
                extract_results_from_response result document_name in
              {| returned := dict_set extracted_data "s3_uri" (PStr s3_uri);
                 polled := Some st |}
          end
      end
  end.

(** The futures of a batch in submission order: each document key with
    what [future.result()] gives. *)
Definition submit_all (jobs : nat -> job) (documents : list string)
  (bucket : string) (cfg : config) : list (string * result exn dict) :=
  map (fun id =>
         (snd id,
          Ok (returned
                (process_single_document (jobs (fst id)) bucket (snd id) cfg))))
      (combine (seq 0 (List.length documents)) documents).

(** [as_completed]: the futures in the order they complete, given as the
    list of their submission indices. *)
Definition as_completed {A : Type} (futures : list A)
  (completion_order : list nat) : list A :=
  flat_map (fun i => match nth_error futures i with
                     | Some f => [f]
                     | None => []
                     end) completion_order.

(** The collecting loop: one record appended per completed future. *)
Fixpoint collect (bucket : string) (completed : list (string * result exn dict))
  (results : list dict) : list dict :=
  match completed with
  | [] => results
  | (doc_key, outcome) :: rest =>
      match outcome with
      | Ok result => collect bucket rest (results ++ [result])
      | Raise e =>
          collect bucket rest
            (results ++ [error_record (last_segment "/" doc_key)
                           ("s3://" ++ bucket ++ "/" ++ doc_key) (exn_str e)])
      end
  end.

(** [process_documents_batch].  [jobs i] is the remote service as the i-th
    submitted document meets it; [completion_order] is the order in which
    the pool completes the futures. *)
Definition process_documents_batch (jobs : nat -> job) (documents : list string)
  (bucket : string) (cfg : config) (completion_order : list nat)
  : result exn (list dict) :=
  match processing cfg with
  | None => Raise (KeyError "processing")
  | Some p =>
      if batch_size p <=? 0 then
        Raise (ValueError "max_workers must be greater than 0")
      else
        Ok (collect bucket
              (as_completed (submit_all jobs documents bucket cfg)
                 completion_order)
              [])
  end.

Definition base_columns : list string :=
  ["document"; "SiteOnForm"; "NameOnForm"; "LogoOnForm"; "EmailOnForm";
   "PhoneOnForm"; "AddressOnForm"; "SignatureOnForm"; "LOB"; "State";
   "Language"].

Definition metadata_columns (include_metadata : bool) : list string :=
  if include_metadata
  then ["s3_uri"; "processing_status"; "error_message"; "output_s3_uri"]
  else [].

(** A data frame: its column labels, and per row the cells that hold a
    value (a missing cell is NaN). *)
Record DataFrame : Type := {
  df_columns : list string;
  df_rows : list dict
}.

Definition add_new (seen : list string) (k : string) : list string :=
  if existsb (String.eqb k) seen then seen else seen ++ [k].

(** [pd.DataFrame(results)]: the keys of the records, each at its first
    appearance. *)
Definition frame_of (results : list dict) : DataFrame :=
  {| df_columns :=
       fold_left (fun seen r => fold_left add_new (map fst r) seen) results [];
     df_rows := results |}.

Definition has_column (df : DataFrame) (col : string) : bool :=
  existsb (String.eqb col) (df_columns df).

(** [df[col] = ''] *)
Definition set_column (df : DataFrame) (col : string) : DataFrame :=
  {| df_columns := add_new (df_columns df) col;
     df_rows := map (fun r => dict_set r col (PStr "")) (df_rows df) |}.

(** The loop that makes sure every base column exists. *)
Definition ensure_base_columns (df : DataFrame) : DataFrame :=
  fold_left (fun d col => if has_column d col then d else set_column d col)
    base_columns df.

(** What [fillna] replaces: a missing cell, [None] and NaN. *)
Definition isna (cell : option pyval) : bool :=
  match cell with
  | None | Some PNone => true
  | Some (PFloat lit) => String.eqb lit "NaN"
  | Some _ => false
  end.

(** A cell of the exported frame.  A string, a list or a dict of a record
    is in the frame as it is, whatever else its column holds: [Object].  An
    int, a float or a bool is in the frame as the dtype pandas infers for the
    whole column has it (int64, float64, bool or object: an int is a float
    in a column that also holds a float or a missing value): [Numeric]
    names the value of the record and leaves the dtype open. *)
Inductive cell : Type :=
| Object (v : pyval)
| Numeric (v : pyval).

(** A cell of [df[columns].fillna('')]: the empty string for a missing
    value, in a column of any dtype, else the value of the record. *)
Definition filled_cell (r : dict) (col : string) : cell :=
  let value := dict_get r col in
  if isna value then Object (PStr "")
  else
    match value with
    | Some (PInt _ as v) | Some (PFloat _ as v) | Some (PBool _ as v) =>
        Numeric v
    | Some v => Object v
    | None => Object (PStr "")
    end.

(** The table handed to [to_csv]: header and rows. *)
Record table : Type := {
  header : list string;
  rows : list (list cell)
}.

(** [f"{x:.1f}"]: one decimal, the exact binary value rounded half to even. *)
Definition round_half_even (n d : Z) : Z :=
  let q := n / d in
  let r := n mod d in
  if 2 * r <? d then q
  else if d <? 2 * r then q + 1
  else if Z.even q then q else q + 1.

Definition format_1f (x : float) : string :=
  match Prim2SF x with
  | S754_zero s => (if s then "-0.0" else "0.0")
  | S754_infinity s => (if s then "-inf" else "inf")
  | S754_nan => "nan"
  | S754_finite s m e =>
      let tenths :=
        if 0 <=? e then Zpos m * 2 ^ e * 10
        else round_half_even (Zpos m * 10) (2 ^ (- e)) in
      (if s then "-" else "") ++ str_int (tenths / 10) ++ "."
      ++ str_int (tenths mod 10)
  end.

(** [a / b * 100] on ints (counts of documents, far below 2^53). *)
Definition percent_of (a b : Z) : result exn float :=
  if b =? 0 then Raise (ZeroDivisionError "division by zero")
  else Ok (PrimFloat.of_uint63 (Uint63.of_Z a)
           / PrimFloat.of_uint63 (Uint63.of_Z b) * 100)%float.

Definition is_success (r : dict) : bool :=
  match dict_get r "processing_status" with
  | Some (PStr s) => String.eqb s "success"
  | _ => false
  end.

(** The summary lines logged after the export, or the exception raised
    while formatting them. *)
Definition summary (results : list dict) : result exn (list string) :=
  let total_docs := Z.of_nat (List.length results) in
  let successful := Z.of_nat (List.length (filter is_success results)) in
  let failed := total_docs - successful in
  successful_pct <- percent_of successful total_docs ;;
  failed_pct <- percent_of failed total_docs ;;
  Ok [("Total documents processed: " ++ str_int total_docs)%string;
      ("Successful: " ++ str_int successful ++ " (" ++ format_1f successful_pct
         ++ "%)")%string;
      ("Failed: " ++ str_int failed ++ " (" ++ format_1f failed_pct
         ++ "%)")%string].

(** [export_results_to_csv]: the table written to the CSV file, then the
    summary. *)
Definition export_results_to_csv (results : list dict) (include_metadata : bool)
  : table * result exn (list string) :=
  let df := ensure_base_columns (frame_of results) in
  let columns :=
    filter (has_column df) (base_columns ++ metadata_columns include_metadata) in
  ({| header := columns;
      rows := map (fun r => map (filled_cell r) columns) (df_rows df) |},
   summary results).


(** The [s3Uri] of the [outputConfiguration] that
    [invoke_document_processing] sends with a document:
    [s3_uri.rsplit('/', 1)[0] + '/output/']. *)
Definition output_configuration_s3_uri (s3_uri : string) : string :=
  fst (rsplit_once "/" s3_uri) ++ "/output/".

(** [Path(local_file).name] on a POSIX system: the last component of the
    path that is neither empty nor a single dot, or the empty string. *)
Definition path_name (local_file : string) : string :=
  last (filter (fun part => nonempty part && negb (String.eqb part "."))
          (split_all "/" local_file))
    EmptyString.

(** The key under which [upload_csv_to_s3] stores a file. *)
Definition upload_key (local_file prefix : string) : string :=
  rstrip "/" prefix ++ "/" ++ path_name local_file.

(** [upload_csv_to_s3]; [upload_file file bucket key] is what the upload of
    the client returns or raises.  A [ClientError] is logged and raised
    again. *)
Definition upload_csv_to_s3
  (upload_file : string -> string -> string -> result exn unit)
  (local_file bucket prefix : string) : result exn string :=
  let s3_key := upload_key local_file prefix in
  let s3_uri := ("s3://" ++ bucket ++ "/" ++ s3_key)%string in
  _ <- upload_file local_file bucket s3_key ;;
  Ok s3_uri.

End process_documents.

(** ** src/bda_pipeline/job.py *)

Module job_runner.

(** The exceptions of the job runner. *)
Inductive exn : Type :=
| ClientError (code : option string) (msg : string)
| RuntimeError (msg : string)
| ValueError (msg : string)
| OverflowError (msg : string)
| OtherError (msg : string).

(** A job as the service describes it, by the keys the runner reads. *)
Record job_info : Type := {
  id : option string;
  jobId : option string;
  name : option string;
  status : option string
}.

(** A response of the service: the description under its [job] key when
    it has one, and the response read as a description itself. *)
Record response : Type := {
  job : option job_info;
  itself : job_info
}.

(** [response.get("job", response)] *)
Definition job_of (r : response) : job_info :=
  match job r with
  | Some j => j
  | None => itself r
  end.

Definition TERMINAL_STATES : list string := ["SUCCEEDED"; "FAILED"; "STOPPED"].

(** [time.sleep(seconds)] for an int. *)
Definition sleep_error (seconds : Z) : option exn :=
  let ns := seconds * 10 ^ 9 in
  if (2 ^ 63 - 1 <? ns) || (ns <? - 2 ^ 63) then
    Some (OverflowError "timestamp too large to convert to C _PyTime_t")
  else if seconds <? 0 then
    Some (ValueError "sleep length must be non-negative")
  else None.

(** The loop of [_wait_for_completion], for at most [fuel] turns, from the
    [asked]-th call of [get_document_processing_job]: what the call returns
    or raises, and the number of status calls made. *)
Fixpoint wait_turns (fuel : nat)
  (get_document_processing_job : nat -> result exn response)
  (job_identifier : string) (poll_seconds : Z) (asked : nat)
  : option (result exn job_info * nat) :=
  match fuel with
  | O => None
  | S fuel' =>
      match get_document_processing_job asked with
      | Raise e => Some (Raise e, S asked)
      | Ok response =>
          let job := job_of response in
          let again :=
            match sleep_error poll_seconds with
            | Some raised => Some (Raise raised, S asked)
            | None =>
                wait_turns fuel' get_document_processing_job job_identifier
                  poll_seconds (S asked)
            end in
          match status job with
          | Some s =>
              if existsb (String.eqb s) TERMINAL_STATES then
                if negb (String.eqb s "SUCCEEDED") then
                  Some (Raise (RuntimeError
                                 ("Job " ++ job_identifier
                                  ++ " ended with status " ++ s)),
                        S asked)
                else Some (Ok job, S asked)
              else again
          | None => again
          end
      end
  end.

(** [_wait_for_completion]: the loop has no bound of its own. *)
Definition _wait_for_completion (fuel : nat)
  (get_document_processing_job : nat -> result exn response)
  (job_identifier : string) (poll_seconds : Z)
  : option (result exn job_info * nat) :=
  wait_turns fuel get_document_processing_job job_identifier poll_seconds 0.

(** [job.get("id") or job.get("jobId") or job.get("name")] when it passes
    the truth test that follows: the first of the three that is set and not
    empty. *)
Definition job_identifier_of (j : job_info) : option string :=
  let truthy (v : option string) :=
    match v with Some s => Py.nonempty s | None => false end in
  if truthy (id j) then id j
  else if truthy (jobId j) then jobId j
  else if truthy (name j) then name j
  else None.

(** [start_job], given what [start_document_processing_job] answers or
    raises and, for a job identifier, what the k-th status call answers or
    raises; [py_repr_job] is [str] of the job dict, which belongs to the
    interpreter.  The result is that of the wait, with its number of status
    calls. *)
Definition start_job (py_repr_job : job_info -> string) (fuel : nat)
  (start_document_processing_job : result exn response)
  (get_document_processing_job : string -> nat -> result exn response)
  : option (result exn job_info * nat) :=
  match start_document_processing_job with
  | Raise e => Some (Raise e, 0%nat)
  | Ok response =>
      let job := job_of response in
      match job_identifier_of job with
      | None =>
          Some (Raise (RuntimeError
                         ("Unable to determine job identifier from response: "
                          ++ py_repr_job job)),
                0%nat)
      | Some job_identifier =>
          _wait_for_completion fuel
            (get_document_processing_job job_identifier) job_identifier 15
      end
  end.

End job_runner.

(** * Part II: vocabulary and worked inputs of the properties *)

(** ** Vocabulary of the statements *)

Module props.
Import Py utils.


(** A status that ends the poll loop. *)
Definition terminal (s : string) : bool :=
  String.eqb s "SUCCESS" || String.eqb s "FAILED".

(** The answer to a status query carries a non-terminal status. *)
Definition non_terminal (r : result exn response) : bool :=
  match r with
  | Ok resp =>
      match status resp with
      | Some s => negb (terminal s)
      | None => true
      end
  | Raise _ => false
  end.

(** The status query raised a client error. *)
Definition client_error (r : result exn response) : bool :=
  match r with
  | Raise (ClientError _) => true
  | _ => false
  end.


(** The status query is answered in a way that makes the poller retry. *)
Definition retried (r : result exn response) : bool :=
  non_terminal r || client_error r.

(** The exception of a timed-out job. *)
Definition timed_out (timeout : Z) : exn :=
  TimeoutError ("Job processing exceeded timeout of " ++ str_int timeout
                ++ " seconds").

(** [time.sleep] accepts the poll interval, after whichever query: the
    interpreter takes the length and the operating system does not refuse
    it. *)
Definition sleep_accepted (svc : service) (poll_interval : Z) : Prop :=
  sleep_error poll_interval = None
  /\ forall k, sleep_refused svc k poll_interval = None.

(** The clock reading under which the poller issues its k-th status query,
    when the queries before it were all followed by a sleep. *)
Fixpoint reading (svc : service) (poll_interval : Z) (k : nat) : Z :=
  match k with
  | O => Z.of_N (first_reading svc)
  | S k' =>
      reading svc poll_interval k' + Zpos (call_ticks svc k')
      + poll_interval * Zpos (hz svc)
  end.

(** What the poller logs for an answer it retries. *)
Definition retry_entry (invocation_arn : string)
  (answer : result exn response) : log_entry :=
  match answer with
  | Ok resp =>
      match status resp with
      | Some s =>
          if String.eqb s "IN_PROGRESS" || String.eqb s "PENDING" then
            (DEBUG, "Job " ++ invocation_arn ++ " status: " ++ s
                    ++ ", waiting...")%string
          else
            (WARNING,
             "Job " ++ invocation_arn ++ " has unknown status: " ++ s)%string
      | None =>
          (WARNING,
           "Job " ++ invocation_arn ++ " has unknown status: None")%string
      end
  | Raise e => (ERROR, "Error checking job status: " ++ exn_str e)%string
  end.

(** What the poller makes of an answer it does not retry, and what it logs
    for it. *)
Definition verdict (answer : result exn response) : result exn response :=
  match answer with
  | Ok resp =>
      let failed :=
        Raise (RuntimeError
                 ("Job failed: "
                  ++ match error resp with
                     | Some m => m
                     | None => "Unknown error"
                     end)%string) in
      match status resp with
      | Some s => if String.eqb s "SUCCESS" then Ok resp else failed
      | None => failed
      end
  | Raise e => Raise e
  end.

Definition final_entries (invocation_arn : string)
  (answer : result exn response) : list log_entry :=
  match answer with
  | Ok resp =>
      match status resp with
      | Some s =>
          if String.eqb s "SUCCESS" then
            [(DEBUG,
              "Job " ++ invocation_arn ++ " completed successfully")%string]
          else
            [(ERROR, "Job " ++ invocation_arn ++ " failed: "
                     ++ match error resp with
                        | Some m => m
                        | None => "Unknown error"
                        end)%string]
      | None => []
      end
  | Raise _ => []
  end.

(** The entry logged when the call times out. *)
Definition timeout_entry (invocation_arn : string) (timeout : Z) : log_entry :=
  (ERROR, "Job " ++ invocation_arn ++ " timed out after " ++ str_int timeout
          ++ " seconds")%string.

(** The state of the poller when the queries before the [n]-th were each
    retried and followed by a sleep: [extra] ticks after the clock reading
    of the [n]-th turn, with [asked_] queries issued in all and [tail]
    logged after the entries of the retried answers. *)
Definition state_after (svc : service) (invocation_arn : string)
  (poll_interval : Z) (n : nat) (extra : Z) (asked_ : nat)
  (tail : list log_entry) : poll_state :=
  {| elapsed := reading svc poll_interval n + extra;
     queries := asked_;
     asked := map (reading svc poll_interval) (seq 0 asked_);
     log :=
       map (fun i => retry_entry invocation_arn
                       (get_data_automation_status svc i)) (seq 0 n)
       ++ tail |}.

(** A loop head reached on schedule: the queries so far were each answered
    in a way the poller retries, issued at their clock readings and logged,
    and the clock shows the reading of the next query. *)
Definition on_schedule (svc : service) (invocation_arn : string)
  (poll_interval : Z) (st : poll_state) : Prop :=
  elapsed st = reading svc poll_interval (queries st)
  /\ asked st = map (reading svc poll_interval) (seq 0 (queries st))
  /\ log st
     = map (fun i => retry_entry invocation_arn
                       (get_data_automation_status svc i))
         (seq 0 (queries st))
  /\ forall i, (i < queries st)%nat ->
               retried (get_data_automation_status svc i) = true.

(** The state in which the loop goes on after the query of [st] and the
    sleep, with [entry] logged in between. *)
Definition retry_state (svc : service) (poll_interval : Z) (st : poll_state)
  (entry : log_entry) : poll_state :=
  {| elapsed := elapsed st + Zpos (call_ticks svc (queries st))
                + poll_interval * Zpos (hz svc);
     queries := S (queries st);
     asked := asked st ++ [elapsed st];
     log := log st ++ [entry] |}.

(** An object of the read-back prefix that does not decode: a [.jsonl]
    object with a non-empty line that is not valid UTF-8 or not JSON, or a
    [.json] object whose body is not valid UTF-8 or not JSON. *)
Definition undecodable (text : string) : bool :=
  negb (utf8_valid text)
  || match Json.loads text with Some _ => false | None => true end.

Definition malformed (s3 : output.s3_client) (bucket key : string) : bool :=
  match output.get_object s3 bucket key with
  | Ok body =>
      if endswith ".jsonl" key then
        existsb (fun line => nonempty line && undecodable line)
          (output.iter_lines body)
      else endswith ".json" key && undecodable body
  | Raise _ => false
  end.

(** Some record has the key [col]. *)
Definition occurs (results : list dict) (col : string) : bool :=
  existsb (fun r => dict_has r col) results.

(** Every key of every row of the frame is one of its column labels. *)
Definition keys_are_columns (df : process_documents.DataFrame) : Prop :=
  forall r k,
    In r (process_documents.df_rows df) ->
    dict_has r k = true ->
    process_documents.has_column df k = true.

(** Two records that fill every cell alike. *)
Definition same_cells (r r' : dict) : Prop :=
  forall col,
    process_documents.filled_cell r col = process_documents.filled_cell r' col.




(** The S3 URI of a document of the input bucket. *)
Definition s3_uri_of (bucket key : string) : string :=
  "s3://" ++ bucket ++ "/" ++ key.

(** The record the collecting loop appends for a completed future. *)
Definition record_of (bucket : string) (f : string * result exn dict) : dict :=
  match snd f with
  | Ok r => r
  | Raise e =>
      process_documents.error_record (last_segment "/" (fst f))
        (s3_uri_of bucket (fst f)) (exn_str e)
  end.

(** The record of the worker of the i-th document. *)
Definition worker_record (jobs : nat -> process_documents.job)
  (documents : list string) (bucket : string) (cfg : config) (i : nat) : dict :=
  process_documents.returned
    (process_documents.process_single_document (jobs i) bucket
       (nth i documents EmptyString) cfg).

End props.

(** ** Worked inputs *)

Module examples.
Import Py utils.

Definition quoted (s : string) : string :=
  String Json.dquote (s ++ String Json.dquote EmptyString).

(** The text of a JSON object with one member, and the same text cut off
    after the colon. *)
Definition well_formed_text : string :=
  "{" ++ quoted "Language" ++ ": " ++ quoted "English" ++ "}".

Definition cut_off_text : string := "{" ++ quoted "Language" ++ ": ".

(** A read-back prefix with one well-formed JSON object. *)
Definition clean_store : output.s3_client :=
  fun bucket =>
    if String.eqb bucket "out"
    then [("results/a.json", well_formed_text)]
    else [].

(** The same prefix with a malformed artifact beside it, as a [.json]
    object and as a [.jsonl] object. *)
Definition mixed_store : output.s3_client :=
  fun bucket =>
    if String.eqb bucket "out"
    then [("results/a.json", well_formed_text);
          ("results/b.json", cut_off_text)]
    else [].

Definition mixed_lines_store : output.s3_client :=
  fun bucket =>
    if String.eqb bucket "out"
    then [("results/a.json", well_formed_text);
          ("results/b.jsonl", cut_off_text)]
    else [].

Definition answer (s : string) : response :=
  {| status := Some s; error := None; outputConfiguration := None;
     output := None |}.

(** A job that stays in progress for ever; ten ticks a second, three ticks
    a query. *)
Definition svc_in_progress : service :=
  {| hz := 10;
     first_reading := 0;
     get_data_automation_status := fun _ => Ok (answer "IN_PROGRESS");
     call_ticks := fun _ => 3%positive;
     sleep_refused := fun _ _ => None |}.



(** A job that is in progress at the first status query and has succeeded
    at the second, with the language extracted. *)
Definition svc_succeeds : service :=
  {| hz := 10;
     first_reading := 0;
     get_data_automation_status :=
       fun k =>
         if (k <? 1)%nat then Ok (answer "IN_PROGRESS")
         else Ok {| status := Some "SUCCESS"; error := None;
                    outputConfiguration := Some (Some "s3://in/docs/output/");
                    output := Some (PDict [("Language", PStr "English");
                                           ("State", PStr "IN")]) |};
     call_ticks := fun _ => 3%positive;
     sleep_refused := fun _ _ => None |}.

Definition accepted : process_documents.job :=
  {| process_documents.invoke_data_automation_async :=
       Ok {| process_documents.invocationArn := Some "arn:job/1" |};
     process_documents.svc := svc_succeeds |}.

Definition rejected : process_documents.job :=
  {| process_documents.invoke_data_automation_async :=
       Raise (ClientError "An error occurred (AccessDeniedException)");
     process_documents.svc := svc_succeeds |}.

(** Three documents; the submission of the second one raises. *)
Definition three_documents : list string :=
  ["docs/a.pdf"; "docs/b.pdf"; "docs/c.pdf"].

Definition second_rejected (i : nat) : process_documents.job :=
  if (i =? 1)%nat then rejected else accepted.

Definition named (region_ bucket_name : string) (p : processing_section)
  : config :=
  {| aws := Some {| region := Some region_ |};
     blueprint := Some {| name := Some "insurance-blueprint" |};
     project := Some {| name := Some "insurance-project" |};
     s3 := Some {| output_prefix := bucket_name |};
     processing := Some p;
     output_ := {| include_metadata := true |} |}.

Definition cfg_ok : config :=
  named "us-east-1" "results"
    {| batch_size := 2; poll_interval := 5; timeout := 300 |}.






(** Every submission accepted. *)
Definition all_accepted (i : nat) : process_documents.job := accepted.






Definition failed (document : string) : dict :=
  [("document", PStr document); ("processing_status", PStr "error");
   ("error_message", PStr "Job failed: Unknown error")].


End examples.

(** ** Vocabulary and worked inputs of the further properties *)

Module further.
Import Py utils.

(** The sleeps of [retry_with_backoff] before its [k]-th call: the delay,
    doubled each time. *)
Definition backoff (delay : Z) (k : nat) : list Z :=
  map (fun i => delay * 2 ^ Z.of_nat i) (seq 0 k).

(** The sum of a list of sleeps. *)
Definition total (lengths : list Z) : Z := fold_right Z.add 0 lengths.

(** All keys a paginator lists, page after page. *)
Definition all_keys (p : paginator) : list string :=
  flat_map (fun page => match page with Some contents => contents | None => [] end)
    (pages p).

(** A function that fails twice with a client error and then returns. *)
Definition third_time_lucky (k : nat) : result exn string :=
  if (k <? 2)%nat then Raise (ClientError "Throttled") else Ok "done".

(** A function that always fails, with the number of the call. *)
Definition always_failing (k : nat) : result exn string :=
  Raise (ClientError (str_int (Z.of_nat k))).

(** An upload that succeeds. *)
Definition uploaded (file bucket key : string) : result exn unit := Ok tt.

(** The response with another value under its [output] key. *)
Definition with_output (r : response) (v : pyval) : response :=
  {| status := status r; error := error r;
     outputConfiguration := outputConfiguration r; output := Some v |}.

(** The entry of a record for the output location of a response. *)
Definition output_location (r : response) : dict :=
  match outputConfiguration r with
  | Some (Some uri) => [("output_s3_uri", PStr uri)]
  | _ => []
  end.

(** The record of a response whose output has no [get]. *)
Definition no_get (document_key type : string) : dict :=
  [("document", PStr document_key); ("processing_status", PStr "error");
   ("error_message",
    PStr ("'" ++ type ++ "' object has no attribute 'get'"))].

(** A successful answer whose output is a dict, and one whose output is the
    text of a JSON object. *)
Definition answer_with_dict : response :=
  {| status := Some "SUCCESS"; error := None;
     outputConfiguration := Some (Some "s3://in/docs/output/");
     output := Some (PDict [("Language", PStr "English");
                            ("Pages", PInt 3)]) |}.

Definition answer_with_text : response :=
  {| status := Some "SUCCESS"; error := None; outputConfiguration := None;
     output := Some (PStr examples.well_formed_text) |}.

(** A job that is pending at two status queries and has succeeded at the
    third; the clock is first read two ticks after the start. *)
Definition svc_pending_twice : service :=
  {| hz := 10;
     first_reading := 2;
     get_data_automation_status :=
       fun k =>
         if (k <? 2)%nat then Ok (examples.answer "PENDING")
         else Ok answer_with_dict;
     call_ticks := fun _ => 3%positive;
     sleep_refused := fun _ _ => None |}.

(** The job of a response of the job service is in a terminal state. *)
Definition ended (r : job_runner.response) : bool :=
  match job_runner.status (job_runner.job_of r) with
  | Some s => existsb (String.eqb s) job_runner.TERMINAL_STATES
  | None => false
  end.

(** What [_wait_for_completion] makes of a job in the terminal state [s]. *)
Definition conclusion (job_identifier : string) (j : job_runner.job_info)
  (s : string) : result job_runner.exn job_runner.job_info :=
  if String.eqb s "SUCCEEDED" then Ok j
  else Raise (job_runner.RuntimeError
                ("Job " ++ job_identifier ++ " ended with status " ++ s)).

(** A response of the job service that describes a job in state [s], and
    a job that runs for [n] status calls and then is in state [s]. *)
Definition described (s : string) : job_runner.response :=
  let nameless :=
    {| job_runner.id := None; job_runner.jobId := None;
       job_runner.name := None; job_runner.status := None |} in
  {| job_runner.job :=
       Some {| job_runner.id := Some "job-1"; job_runner.jobId := None;
               job_runner.name := None; job_runner.status := Some s |};
     job_runner.itself := nameless |}.

Definition runs_then (n : nat) (s : string) (k : nat)
  : result job_runner.exn job_runner.response :=
  if (k <? n)%nat then Ok (described "RUNNING") else Ok (described s).

End further.

Import Py utils props.

(** * Part III: proofs *)

(** ** The poll loop *)

(** A length the interpreter accepts is not negative. *)
Lemma sleep_error_accepts (seconds : Z) :
  sleep_error seconds = None -> 0 <= seconds.
Proof.
  unfold sleep_error.
  destruct (Z.ltb_spec seconds 0); [| intros _; assumption].
  destruct (_ : bool); discriminate.
Qed.

Section Poller.

Variable svc : service.
Variable invocation_arn : string.
Variables poll_interval timeout : Z.

Local Abbreviation deadline := (timeout * Zpos (hz svc)).
Local Abbreviation turn_of :=
  (poll_turn svc invocation_arn poll_interval timeout).
Local Abbreviation loop fuel :=
  (wait_loop fuel svc invocation_arn poll_interval timeout).
Local Abbreviation answer_of k := (get_data_automation_status svc k).
Local Abbreviation reading_of := (reading svc poll_interval).
Local Abbreviation entry_of k :=
  (retry_entry invocation_arn (get_data_automation_status svc k)).
Local Abbreviation after n extra asked_ tail :=
  (state_after svc invocation_arn poll_interval n extra asked_ tail).

(** The state once the query of a turn has been issued, a state with more
    entries logged, and a state after the sleep. *)
Local Abbreviation queried st :=
  {| elapsed := elapsed st + Zpos (call_ticks svc (queries st));
     queries := S (queries st);
     asked := asked st ++ [elapsed st];
     log := log st |}.
Local Abbreviation with_entries st entries :=
  {| elapsed := elapsed st; queries := queries st; asked := asked st;
     log := log st ++ entries |}.
Local Abbreviation slept st :=
  {| elapsed := elapsed st + poll_interval * Zpos (hz svc);
     queries := queries st; asked := asked st; log := log st |}.

(** The sleep of a turn either raises or lets the loop go on. *)
Lemma after_sleep_cases (st : poll_state) :
  after_sleep svc poll_interval st
  = match sleep_error poll_interval with
    | Some e => Done (Raise e) st
    | None =>
        match sleep_refused svc (Nat.pred (queries st)) poll_interval with
        | Some e => Done (Raise e) st
        | None => Continue (slept st)
        end
    end.
Proof.
  unfold after_sleep, sleep.
  destruct (sleep_error poll_interval); [reflexivity |].
  destruct (sleep_refused svc _ poll_interval); reflexivity.
Qed.

(** One turn, by what the clock and the service say: past the deadline the
    call times out without a query; an answer that is retried is logged and
    followed by the sleep; any other answer ends the call. *)
Lemma poll_turn_cases (st : poll_state) :
  turn_of st
  = if deadline <? elapsed st then
      Done (Raise (timed_out timeout))
        (with_entries st [timeout_entry invocation_arn timeout])
    else if retried (answer_of (queries st)) then
      after_sleep svc poll_interval
        (with_entries (queried st) [entry_of (queries st)])
    else
      Done (verdict (answer_of (queries st)))
        (with_entries (queried st)
           (final_entries invocation_arn (answer_of (queries st)))).
Proof.
  unfold poll_turn, retried, non_terminal, client_error, terminal, verdict,
    retry_entry, final_entries, timed_out, timeout_entry, logged.
  destruct (deadline <? elapsed st); [reflexivity |].
  destruct (answer_of (queries st)) as [resp | e].
  - destruct (status resp) as [s |]; [| reflexivity].
    destruct (String.eqb s "SUCCESS"); [reflexivity |].
    destruct (String.eqb s "FAILED"); [reflexivity |].
    cbn [orb negb].
    destruct (String.eqb s "IN_PROGRESS" || String.eqb s "PENDING");
      reflexivity.
  - destruct e; cbn [orb negb exn_str]; rewrite ?app_nil_r; reflexivity.
Qed.


(** A turn that goes on was within the deadline, asked one query, whose
    answer is one the poller retries, logged it and slept the poll
    interval. *)
Lemma poll_turn_continue (st st' : poll_state) :
  turn_of st = Continue st' ->
  elapsed st <= deadline
  /\ retried (answer_of (queries st)) = true
  /\ 0 <= poll_interval
  /\ st' = retry_state svc poll_interval st (entry_of (queries st)).
Proof.
  rewrite poll_turn_cases.
  destruct (Z.ltb_spec deadline (elapsed st)); [discriminate |].
  destruct (retried (answer_of (queries st))); [| discriminate].
  rewrite after_sleep_cases.
  destruct (sleep_error poll_interval) eqn:Hsleep; [discriminate |].
  destruct (sleep_refused svc _ poll_interval); [discriminate |].
  intros Hd. inversion Hd; subst; clear Hd.
  repeat split; try assumption.
  apply sleep_error_accepts. assumption.
Qed.

(** A turn that ends the call timed out without a query, or asked its
    query within the deadline and either got an answer that decides or
    could not sleep. *)
Lemma poll_turn_done (st st' : poll_state) (r : result exn response) :
  turn_of st = Done r st' ->
  (deadline < elapsed st
   /\ r = Raise (timed_out timeout)
   /\ st' = with_entries st [timeout_entry invocation_arn timeout])
  \/ (elapsed st <= deadline
      /\ retried (answer_of (queries st)) = false
      /\ r = verdict (answer_of (queries st))
      /\ st' = with_entries (queried st)
                 (final_entries invocation_arn (answer_of (queries st))))
  \/ (elapsed st <= deadline
      /\ retried (answer_of (queries st)) = true
      /\ (exists e,
             r = Raise e
             /\ (sleep_error poll_interval = Some e
                 \/ sleep_error poll_interval = None
                    /\ sleep_refused svc (queries st) poll_interval = Some e))
      /\ st' = with_entries (queried st) [entry_of (queries st)]).
Proof.
  rewrite poll_turn_cases.
  destruct (Z.ltb_spec deadline (elapsed st)).
  - intros Hd. inversion Hd; subst. left. auto.
  - destruct (retried (answer_of (queries st))).
    + rewrite after_sleep_cases. cbn [queries Nat.pred].
      destruct (sleep_error poll_interval) eqn:Hsleep.
      * intros Hd. inversion Hd; subst. right. right.
        repeat split; try assumption. eauto.
      * destruct (sleep_refused svc (queries st) poll_interval) eqn:Hos;
          [| discriminate].
        intros Hd. inversion Hd; subst. right. right.
        repeat split; try assumption. eauto.
    + intros Hd. inversion Hd; subst. right. left. auto.
Qed.


(** The loop ends: enough turns are those of the remaining ticks. *)
Lemma wait_loop_ends (fuel : nat) :
  forall st,
    (Z.to_nat (deadline - elapsed st + 1) + 1 <= fuel)%nat ->
    exists r, loop fuel st = Some r.
Proof.
  induction fuel as [| fuel IH]; intros st Hfuel; [lia |].
  simpl.
  destruct (turn_of st) as [st' | r st'] eqn:Hturn; [| eauto].
  apply poll_turn_continue in Hturn as (Hin & _ & Hpi & ->).
  apply IH. unfold retry_state. cbn [elapsed].
  pose proof (Pos2Z.is_pos (call_ticks svc (queries st))).
  pose proof (Pos2Z.is_pos (hz svc)). nia.
Qed.

(** More turns change nothing once the loop has ended. *)
Lemma wait_loop_more_fuel (fuel fuel' : nat) :
  forall st r,
    loop fuel st = Some r -> (fuel <= fuel')%nat -> loop fuel' st = Some r.
Proof.
  revert fuel'. induction fuel as [| fuel IH]; intros fuel' st r H Hle;
    [discriminate |].
  destruct fuel' as [| fuel']; [lia |].
  simpl in *.
  destruct (poll_turn svc invocation_arn poll_interval timeout st);
    [apply IH; [assumption | lia] | assumption].
Qed.

(** [wait_for_job_completion] is the result of the loop, for any number of
    turns from [enough_turns] on, and for any number that ends the loop. *)
Lemma wait_for_job_completion_is_loop (fuel : nat) :
  (enough_turns svc timeout (start svc) <= fuel)%nat ->
  loop fuel (start svc)
  = Some (wait_for_job_completion svc invocation_arn poll_interval timeout).
Proof.
  intros Hfuel. unfold wait_for_job_completion.
  destruct (wait_loop_ends (enough_turns svc timeout (start svc)) (start svc))
    as [r Hr].
  { unfold enough_turns. lia. }
  rewrite Hr.
  apply (wait_loop_more_fuel _ _ _ _ Hr Hfuel).
Qed.


(** The clock readings of the queries go up with the poll interval. *)
Lemma reading_monotone (i k : nat) :
  0 <= poll_interval -> (i <= k)%nat -> reading_of i <= reading_of k.
Proof.
  intros Hpi. induction 1 as [| k Hle IH]; [lia |].
  simpl. pose proof (Pos2Z.is_pos (call_ticks svc k)).
  pose proof (Pos2Z.is_pos (hz svc)). nia.
Qed.

Lemma reading_at_least (k : nat) :
  0 <= poll_interval ->
  Z.of_nat k * (poll_interval * Zpos (hz svc) + 1) <= reading_of k.
Proof.
  intros Hpi. induction k as [| k IH]; [simpl; lia |].
  rewrite Nat2Z.inj_succ. simpl reading.
  pose proof (Pos2Z.is_pos (call_ticks svc k)). nia.
Qed.

(** The loop head is reached on schedule. *)
Lemma start_on_schedule :
  on_schedule svc invocation_arn poll_interval (start svc).
Proof.
  unfold on_schedule, start. cbn. repeat split. intros i Hi. lia.
Qed.

Lemma continue_on_schedule (st st' : poll_state) :
  turn_of st = Continue st' ->
  on_schedule svc invocation_arn poll_interval st ->
  on_schedule svc invocation_arn poll_interval st'.
Proof.
  intros Hturn (Hel & Hasked & Hlog & Hre).
  apply poll_turn_continue in Hturn as (_ & Hr & _ & ->).
  unfold on_schedule, retry_state. cbn [elapsed queries asked log].
  rewrite Hel, Hasked, Hlog, !seq_S, !map_app. cbn [Nat.add map reading].
  repeat split.
  intros i Hi. destruct (Nat.eq_dec i (queries st)) as [-> |];
    [assumption | apply Hre; lia].
Qed.

(** What a run of the loop does, from a loop head reached on schedule: the
    queries up to some [n] are each answered in a way the poller retries,
    logged and followed by a sleep, all within the deadline; then the clock
    is past the deadline and the call times out, or the [n]-th answer
    decides, or the sleep after the [n]-th answer raises. *)
Lemma wait_loop_trace (fuel : nat) :
  forall st r st',
    loop fuel st = Some (r, st') ->
    on_schedule svc invocation_arn poll_interval st ->
    exists n,
      (queries st <= n)%nat
      /\ (forall i, (i < n)%nat -> retried (answer_of i) = true)
      /\ (forall i, (queries st <= i < n)%nat -> reading_of i <= deadline)
      /\ ((deadline < reading_of n
           /\ r = Raise (timed_out timeout)
           /\ st' = after n 0 n [timeout_entry invocation_arn timeout])
          \/ (reading_of n <= deadline
              /\ retried (answer_of n) = false
              /\ r = verdict (answer_of n)
              /\ st' = after n (Zpos (call_ticks svc n)) (S n)
                         (final_entries invocation_arn (answer_of n)))
          \/ (reading_of n <= deadline
              /\ retried (answer_of n) = true
              /\ (exists e,
                     r = Raise e
                     /\ (sleep_error poll_interval = Some e
                         \/ sleep_error poll_interval = None
                            /\ sleep_refused svc n poll_interval = Some e))
              /\ st' = after n (Zpos (call_ticks svc n)) (S n) [entry_of n])).
Proof.
  induction fuel as [| fuel IH]; intros st r st' H Hst; [discriminate |].
  simpl in H.
  destruct (turn_of st) as [st1 | r1 st1] eqn:Hturn.
  - pose proof (continue_on_schedule _ _ Hturn Hst) as Hst1.
    apply poll_turn_continue in Hturn as (Hin & _ & _ & Hst1eq).
    destruct (IH st1 r st' H Hst1) as (n & Hn & Hre & Hread & Hend).
    assert (Hq : queries st1 = S (queries st)) by (rewrite Hst1eq; reflexivity).
    exists n. rewrite Hq in Hn, Hread.
    split; [lia |]. split; [assumption |]. split; [| assumption].
    intros i Hi. destruct (Nat.eq_dec i (queries st)) as [-> |].
    + destruct Hst as (Hel & _). rewrite <- Hel. assumption.
    + apply Hread. lia.
  - inversion H; subst; clear H.
    destruct Hst as (Hel & Hasked & Hlog & Hre).
    exists (queries st).
    split; [lia |]. split; [assumption |]. split; [intros i Hi; lia |].
    rewrite <- Hel.
    apply poll_turn_done in Hturn
        as [(Hpast & -> & ->) | [(Hin & Hr & -> & ->) | (Hin & Hr & He & ->)]].
    + left. repeat split; [assumption |].
      unfold state_after. rewrite <- Hel, <- Hasked, <- Hlog, Z.add_0_r.
      reflexivity.
    + right. left. repeat split; try assumption.
      unfold state_after.
      rewrite <- Hel, <- Hlog, seq_S, map_app, <- Hasked.
      cbn [Nat.add map]. rewrite <- Hel. reflexivity.
    + right. right. repeat split; try assumption.
      unfold state_after.
      rewrite <- Hel, <- Hlog, seq_S, map_app, <- Hasked.
      cbn [Nat.add map]. rewrite <- Hel. reflexivity.
Qed.

(** The same for the whole call. *)
Lemma wait_for_job_completion_trace :
  exists n,
    (forall i, (i < n)%nat -> retried (answer_of i) = true)
    /\ (forall i, (i < n)%nat -> reading_of i <= deadline)
    /\ ((deadline < reading_of n
         /\ wait_for_job_completion svc invocation_arn poll_interval timeout
            = (Raise (timed_out timeout),
               after n 0 n [timeout_entry invocation_arn timeout]))
        \/ (reading_of n <= deadline
            /\ retried (answer_of n) = false
            /\ wait_for_job_completion svc invocation_arn poll_interval
                 timeout
               = (verdict (answer_of n),
                  after n (Zpos (call_ticks svc n)) (S n)
                    (final_entries invocation_arn (answer_of n))))
        \/ (reading_of n <= deadline
            /\ retried (answer_of n) = true
            /\ exists e,
                 (sleep_error poll_interval = Some e
                  \/ sleep_error poll_interval = None
                     /\ sleep_refused svc n poll_interval = Some e)
                 /\ wait_for_job_completion svc invocation_arn poll_interval
                      timeout
                    = (Raise e,
                       after n (Zpos (call_ticks svc n)) (S n) [entry_of n]))).
Proof.
  pose proof (wait_for_job_completion_is_loop _ (Nat.le_refl _)) as Hrun.
  destruct (wait_for_job_completion svc invocation_arn poll_interval timeout)
    as [r st'].
  destruct (wait_loop_trace _ _ _ _ Hrun start_on_schedule)
    as (n & _ & Hre & Hread & Hend).
  exists n. split; [assumption |].
  split; [intros i Hi; apply Hread; cbn; lia |].
  destruct Hend as [(H1 & -> & ->) | [(H1 & H2 & -> & ->)
                                     | (H1 & H2 & (e & -> & He) & ->)]].
  - left. auto.
  - right. left. auto.
  - right. right. split; [assumption |]. split; [assumption |].
    exists e. auto.
Qed.

(** When the sleep is accepted, the call ends by the timeout or by an
    answer that decides. *)
Lemma wait_for_job_completion_accepted :
  sleep_accepted svc poll_interval ->
  exists n,
    (forall i, (i < n)%nat -> retried (answer_of i) = true)
    /\ (forall i, (i < n)%nat -> reading_of i <= deadline)
    /\ ((deadline < reading_of n
         /\ wait_for_job_completion svc invocation_arn poll_interval timeout
            = (Raise (timed_out timeout),
               after n 0 n [timeout_entry invocation_arn timeout]))
        \/ (reading_of n <= deadline
            /\ retried (answer_of n) = false
            /\ wait_for_job_completion svc invocation_arn poll_interval
                 timeout
               = (verdict (answer_of n),
                  after n (Zpos (call_ticks svc n)) (S n)
                    (final_entries invocation_arn (answer_of n))))).
Proof.
  intros [Hsleep Hos].
  destruct wait_for_job_completion_trace
    as (n & Hre & Hread & [H | [H | (_ & _ & e & He & _)]]).
  - exists n. auto.
  - exists n. auto.
  - destruct He as [He | [_ He]]; [rewrite Hsleep in He | rewrite Hos in He];
      discriminate.
Qed.





End Poller.

(** ** The job poller *)

(** How the answers the poller retries are logged. *)
Lemma client_error_entry (invocation_arn msg : string) :
  retried (Raise (ClientError msg)) = true
  /\ retry_entry invocation_arn (Raise (ClientError msg))
     = (ERROR, "Error checking job status: " ++ msg)%string.
Proof. split; reflexivity. Qed.






Section PollerClaims.

Variable svc : service.
Variable invocation_arn : string.
Variables poll_interval timeout : Z.




End PollerClaims.







(** ** The worker and the batch *)

Import process_documents.

Lemma dict_get_set_same (d : dict) (k : string) (v : pyval) :
  dict_get (dict_set d k v) k = Some v.
Proof.
  induction d as [| [k' v'] d IH]; simpl.
  - rewrite String.eqb_refl. reflexivity.
  - destruct (String.eqb k' k) eqn:E; simpl; rewrite E; auto.
Qed.

Lemma dict_get_set_other (d : dict) (k k' : string) (v : pyval) :
  k <> k' -> dict_get (dict_set d k v) k' = dict_get d k'.
Proof.
  intros Hne. induction d as [| [k0 v0] d IH]; simpl.
  - destruct (String.eqb_spec k k'); [contradiction | reflexivity].
  - destruct (String.eqb_spec k0 k) as [-> |]; simpl.
    + destruct (String.eqb_spec k k'); [contradiction | reflexivity].
    + destruct (String.eqb_spec k0 k'); [reflexivity | assumption].
Qed.

(** Every worker's record names its document. *)
Lemma process_single_document_s3_uri (j : job) (bucket key : string)
  (cfg : config) :
  dict_get (returned (process_single_document j bucket key cfg)) "s3_uri"
  = Some (PStr (s3_uri_of bucket key)).
Proof.
  unfold process_single_document, s3_uri_of.
  destruct (invoke_document_processing j _) as [[arn u | u err] | e];
    try reflexivity.
  destruct (processing cfg) as [p |]; [| reflexivity].
  destruct (wait_for_job_completion _ _ _ _) as [[r | e] st];
    [| reflexivity].
  simpl. apply dict_get_set_same.
Qed.

Lemma collect_appends (bucket : string)
  (completed : list (string * result exn dict)) :
  forall results,
    collect bucket completed results
    = results ++ map (record_of bucket) completed.
Proof.
  induction completed as [| [doc_key [r | e]] rest IH]; intros results; simpl.
  - rewrite app_nil_r. reflexivity.
  - rewrite IH, <- app_assoc. reflexivity.
  - rewrite IH, <- app_assoc. reflexivity.
Qed.

Lemma nth_error_submit_all (jobs : nat -> job) (documents : list string)
  (bucket : string) (cfg : config) (i : nat) :
  (i < List.length documents)%nat ->
  nth_error (submit_all jobs documents bucket cfg) i
  = Some (nth i documents EmptyString,
          Ok (worker_record jobs documents bucket cfg i)).
Proof.
  intros Hi. unfold submit_all, worker_record.
  rewrite nth_error_map.
  assert (H : nth_error (combine (seq 0 (List.length documents)) documents) i
              = Some (i, nth i documents EmptyString)).
  { rewrite (nth_error_nth' _ (0%nat, EmptyString)).
    - rewrite combine_nth by apply length_seq.
      rewrite seq_nth by assumption. reflexivity.
    - rewrite length_combine, length_seq. lia. }
  rewrite H. reflexivity.
Qed.

Lemma as_completed_submit_all (jobs : nat -> job) (documents : list string)
  (bucket : string) (cfg : config) (order : list nat) :
  Forall (fun i => (i < List.length documents)%nat) order ->
  as_completed (submit_all jobs documents bucket cfg) order
  = map (fun i => (nth i documents EmptyString,
                   Ok (worker_record jobs documents bucket cfg i))) order.
Proof.
  unfold as_completed.
  induction 1 as [| i order Hi _ IH]; simpl; [reflexivity |].
  rewrite nth_error_submit_all by assumption. simpl. rewrite IH. reflexivity.
Qed.

Lemma map_nth_seq {A : Type} (l : list A) (d : A) :
  map (fun i => nth i l d) (seq 0 (List.length l)) = l.
Proof.
  induction l as [| a l IH]; simpl; [reflexivity |].
  rewrite <- seq_shift, map_map. simpl. rewrite IH. reflexivity.
Qed.

Lemma permutation_in_range (order : list nat) (n : nat) :
  Permutation order (seq 0 n) -> Forall (fun i => (i < n)%nat) order.
Proof.
  intros Hperm. apply Forall_forall. intros i Hi.
  apply (Permutation_in _ Hperm) in Hi. apply in_seq in Hi. lia.
Qed.

(** The batch, once the pool exists: the workers' records in completion
    order. *)
Lemma process_documents_batch_records (jobs : nat -> job)
  (documents : list string) (bucket : string) (cfg : config)
  (p : processing_section) (order : list nat) :
  processing cfg = Some p ->
  0 < batch_size p ->
  Forall (fun i => (i < List.length documents)%nat) order ->
  process_documents_batch jobs documents bucket cfg order
  = Ok (map (worker_record jobs documents bucket cfg) order).
Proof.
  intros Hp Hsize Horder. unfold process_documents_batch. rewrite Hp.
  destruct (Z.leb_spec (batch_size p) 0); [lia |].
  rewrite collect_appends, as_completed_submit_all by assumption.
  simpl. rewrite map_map. reflexivity.
Qed.

(** C1. For every document list and every positive concurrency, and in
    whatever order the pool completes the workers, the batch returns exactly
    one record per input document: the record of the worker of each document,
    which carries that document's S3 URI whichever way the worker ended; and
    the collecting loop appends exactly one record per completed future, an
    error record of the future's document when the future raised. *)
Theorem batch_yields_one_record_per_document (jobs : nat -> job)
  (documents : list string) (bucket : string) (cfg : config)
  (p : processing_section) (completion_order : list nat) :
  processing cfg = Some p ->
  0 < batch_size p ->
  Permutation completion_order (seq 0 (List.length documents)) ->
  exists results,
    process_documents_batch jobs documents bucket cfg completion_order
    = Ok results
    /\ List.length results = List.length documents
    /\ results
       = map (fun i =>
                returned (process_single_document (jobs i) bucket
                            (nth i documents EmptyString) cfg))
           completion_order
    /\ Permutation (map (fun r => dict_get r "s3_uri") results)
         (map (fun key => Some (PStr (s3_uri_of bucket key))) documents)
    /\ (forall completed,
          List.length (collect bucket completed []) = List.length completed
          /\ forall n doc_key,
               (forall r,
                   nth_error completed n = Some (doc_key, Ok r) ->
                   nth_error (collect bucket completed []) n = Some r)
               /\ (forall e,
                     nth_error completed n = Some (doc_key, Raise e) ->
                     nth_error (collect bucket completed []) n
                     = Some (error_record (last_segment "/" doc_key)
                               (s3_uri_of bucket doc_key) (exn_str e)))).
Proof.
  intros Hp Hsize Hperm.
  pose proof (permutation_in_range _ _ Hperm) as Hrange.
  eexists. split; [| split; [| split; [| split]]].
  - apply (process_documents_batch_records _ _ _ _ p); assumption.
  - rewrite length_map, (Permutation_length Hperm), length_seq. reflexivity.
  - reflexivity.
  - rewrite map_map.
    erewrite map_ext
      by (intros i; apply process_single_document_s3_uri).
    assert (Hdocs :
              map (fun key => Some (PStr (s3_uri_of bucket key))) documents
              = map (fun i => Some (PStr (s3_uri_of bucket
                                            (nth i documents EmptyString))))
                  (seq 0 (List.length documents))).
    { rewrite <- (map_map (fun i => nth i documents EmptyString)
                    (fun key => Some (PStr (s3_uri_of bucket key)))).
      rewrite map_nth_seq. reflexivity. }
    rewrite Hdocs. apply Permutation_map. assumption.
  - intros completed. rewrite collect_appends. simpl.
    split; [apply length_map |].
    intros n doc_key. split; intros x Hn; rewrite nth_error_map, Hn;
      reflexivity.
Qed.

Lemma batch_yields_one_record_per_document_witness :
  exists results,
    process_documents_batch examples.second_rejected examples.three_documents
      "in" examples.cfg_ok [2; 0; 1]%nat = Ok results
    /\ List.length results = 3%nat.
Proof.
  destruct (batch_yields_one_record_per_document examples.second_rejected
              examples.three_documents "in" examples.cfg_ok
              {| batch_size := 2; poll_interval := 5; timeout := 300 |}
              [2; 0; 1]%nat)
    as (results & Hrun & Hlen & _).
  - reflexivity.
  - reflexivity.
  - apply perm_trans with [0; 2; 1]%nat; [apply perm_swap |].
    apply perm_skip, perm_swap.
  - exists results. split; assumption.
Defined.

(** ** Reading results back: src/bda_pipeline/output.py *)

Lemma string_length_append (a b : string) :
  String.length (a ++ b) = (String.length a + String.length b)%nat.
Proof.
  induction a as [| c a IH]; simpl; [reflexivity | rewrite IH; reflexivity].
Qed.

(** The separators of a join are one fewer than the parts. *)
Lemma join_length (sep : string) (parts : list string) :
  String.length (join sep parts)
  = (list_sum (map String.length parts)
     + (List.length parts - 1) * String.length sep)%nat.
Proof.
  induction parts as [| p [| p' rest] IH]; simpl in *.
  - reflexivity.
  - lia.
  - rewrite !string_length_append, IH. lia.
Qed.

Lemma join_rule_cases (field_name : option string) :
  output.join_rule field_name
  = match field_name with
    | Some f => if String.eqb f "LogoOnForm" then "," else ", "
    | None => ", "
    end.
Proof.
  destruct field_name as [f |]; [| reflexivity].
  unfold output.join_rule, output.FIELD_JOIN_RULES. cbn [find fst snd].
  rewrite (String.eqb_sym "LogoOnForm" f).
  destruct (String.eqb f "LogoOnForm"); reflexivity.
Qed.

Section OutputClaims.

Import output.

Variable py_repr : pyval -> string.

(** The loop over the items of a list value keeps the non-empty normalized
    items, in order. *)
Lemma _normalize_value_list (items : list pyval) (field_name : option string) :
  _normalize_value py_repr (PList items) field_name
  = join (join_rule field_name)
      (filter nonempty
         (map (fun item => _normalize_value py_repr item field_name) items)).
Proof.
  simpl. f_equal.
  induction items as [| item rest IH]; simpl; [reflexivity |].
  destruct (nonempty (_normalize_value py_repr item field_name));
    rewrite IH; reflexivity.
Qed.

(** C7. A list value is normalized by normalizing its items, dropping the
    items whose normalized string is empty, and joining the rest with the
    field's separator, [", "] unless the field is LogoOnForm, whose separator
    is [","]: between [n] kept items stand exactly [n - 1] separators.  The
    list [["a", "", "b"]] gives ["a, b"] by the default rule and ["a,b"] for
    LogoOnForm.  A string, an int and a bool are rendered by [str]; [None]
    is rendered as the empty string. *)
Theorem list_values_join_their_nonempty_items :
  (forall items field_name,
      let kept :=
        filter nonempty
          (map (fun item => _normalize_value py_repr item field_name) items) in
      _normalize_value py_repr (PList items) field_name
      = join (join_rule field_name) kept
      /\ String.length (_normalize_value py_repr (PList items) field_name)
         = (list_sum (map String.length kept)
            + (List.length kept - 1) * String.length (join_rule field_name))%nat)
  /\ (forall field_name,
        join_rule field_name
        = match field_name with
          | Some f => if String.eqb f "LogoOnForm" then "," else ", "
          | None => ", "
          end)
  /\ _normalize_value py_repr (PList [PStr "a"; PStr ""; PStr "b"])
       (Some "NameOnForm") = "a, b"
  /\ _normalize_value py_repr (PList [PStr "a"; PStr ""; PStr "b"]) None
     = "a, b"
  /\ _normalize_value py_repr (PList [PStr "a"; PStr ""; PStr "b"])
       (Some "LogoOnForm") = "a,b"
  /\ (forall s field_name, _normalize_value py_repr (PStr s) field_name = s)
  /\ (forall z field_name,
        _normalize_value py_repr (PInt z) field_name = str_int z)
  /\ (forall b field_name,
        _normalize_value py_repr (PBool b) field_name
        = if b then "True" else "False")
  /\ (forall field_name, _normalize_value py_repr PNone field_name = "")
  /\ (forall value field_name,
        match value with
        | PNone | PList _ => True
        | _ => _normalize_value py_repr value field_name = str py_repr value
        end).
Proof.
  split; [| split; [| repeat split]].
  - intros items field_name kept. split.
    + apply _normalize_value_list.
    + rewrite _normalize_value_list. apply join_length.
  - apply join_rule_cases.
  - intros value field_name. destruct value; exact I || reflexivity.
Qed.

(** A listed key is the key of an object of the bucket. *)
Lemma get_object_listed (s3 : s3_client) (bucket prefix key : string) :
  In key (list_objects_v2 s3 bucket prefix) ->
  exists body, get_object s3 bucket key = Ok body.
Proof.
  unfold list_objects_v2, get_object. intros Hin.
  apply in_map_iff in Hin as ([k body] & Hk & Hin). simpl in Hk. subst k.
  apply filter_In in Hin as [Hin _].
  destruct (find (fun o => String.eqb (fst o) key) (s3 bucket)) as [o |] eqn:E.
  - eauto.
  - apply (find_none _ _ E) in Hin. simpl in Hin.
    rewrite String.eqb_refl in Hin. discriminate.
Qed.

(** The lines of a [.jsonl] object are read, or the first one that does
    not decode raises. *)
Lemma _load_json_lines_from_cases (lines : list string) :
  if existsb (fun line => nonempty line && undecodable line) lines
  then _load_json_lines_from py_repr lines = Raise JSONDecodeError
       \/ _load_json_lines_from py_repr lines = Raise UnicodeDecodeError
  else exists records, _load_json_lines_from py_repr lines = Ok records.
Proof.
  induction lines as [| line rest IH]; simpl; [eauto |].
  destruct (nonempty line); simpl; [| assumption].
  unfold undecodable, decode.
  destruct (utf8_valid line); simpl; [| right; reflexivity].
  destruct (Json.loads line) as [data |]; simpl; [| left; reflexivity].
  destruct (existsb _ rest).
  - destruct IH as [-> | ->]; [left | right]; reflexivity.
  - destruct IH as [records ->]. simpl. destruct data; eauto.
Qed.

Lemma records_of_key_cases (s3 : s3_client) (bucket prefix key : string) :
  In key (list_objects_v2 s3 bucket prefix) ->
  if malformed s3 bucket key
  then records_of_key py_repr s3 bucket key = Raise JSONDecodeError
       \/ records_of_key py_repr s3 bucket key = Raise UnicodeDecodeError
  else exists records, records_of_key py_repr s3 bucket key = Ok records.
Proof.
  intros Hin. destruct (get_object_listed _ _ _ _ Hin) as [body Hbody].
  unfold malformed, records_of_key, _load_json_lines, _load_json_object.
  rewrite Hbody. simpl.
  destruct (endswith ".jsonl" key).
  - apply _load_json_lines_from_cases.
  - destruct (endswith ".json" key); simpl; [| eauto].
    unfold undecodable, decode.
    destruct (utf8_valid body); simpl; [| right; reflexivity].
    destruct (Json.loads body) as [document |]; simpl; [| left; reflexivity].
    destruct document; eauto.
Qed.

Lemma records_of_keys_cases (s3 : s3_client) (bucket prefix : string)
  (keys : list string) :
  (forall key, In key keys -> In key (list_objects_v2 s3 bucket prefix)) ->
  if existsb (malformed s3 bucket) keys
  then records_of_keys py_repr s3 bucket keys = Raise JSONDecodeError
       \/ records_of_keys py_repr s3 bucket keys = Raise UnicodeDecodeError
  else exists records, records_of_keys py_repr s3 bucket keys = Ok records.
Proof.
  induction keys as [| key rest IH]; intros Hlisted; simpl; [eauto |].
  pose proof (records_of_key_cases s3 bucket prefix key
                (Hlisted key (or_introl eq_refl))) as Hkey.
  specialize (IH (fun k Hk => Hlisted k (or_intror Hk))).
  destruct (malformed s3 bucket key); simpl.
  - destruct Hkey as [-> | ->]; [left | right]; reflexivity.
  - destruct Hkey as [here ->]. simpl.
    destruct (existsb (malformed s3 bucket) rest).
    + destruct IH as [-> | ->]; [left | right]; reflexivity.
    + destruct IH as [more ->]. simpl. eauto.
Qed.

(** The writer that raises nothing has written every line. *)
Lemma write_lines_all (lines : list (list string)) :
  snd (write_lines lines) = None -> fst (write_lines lines) = lines.
Proof.
  induction lines as [| line rest IH]; simpl; [reflexivity |].
  destruct (forallb encodable line); [| discriminate].
  destruct (write_lines rest) as [written raised]. simpl in *.
  intros H. rewrite (IH H). reflexivity.
Qed.

(** C2, as the code has it.  A listed [.json] or [.jsonl] object that does
    not decode, because its text is not JSON or its bytes are not UTF-8, is
    not skipped: the read raises the decoder's exception, [JSONDecodeError]
    or [UnicodeDecodeError], no record reaches [build_csv], the CSV file is
    never opened, and [main] ends with status 1. *)
Theorem malformed_artifact_aborts_the_read (s3 : s3_client)
  (output_s3_uri bucket prefix : string) (fieldnames : list string) :
  _split_s3_uri output_s3_uri = Ok (bucket, prefix) ->
  existsb (malformed s3 bucket) (list_objects_v2 s3 bucket prefix) = true ->
  (build_csv py_repr s3 output_s3_uri fieldnames = Raise JSONDecodeError
   \/ build_csv py_repr s3 output_s3_uri fieldnames
      = Raise UnicodeDecodeError)
  /\ (forall records,
        _iter_job_records py_repr s3 output_s3_uri <> Ok records)
  /\ csv_on_disk py_repr s3 output_s3_uri fieldnames = None
  /\ main_after_job py_repr s3 output_s3_uri fieldnames = (1, None).
Proof.
  intros Hsplit Hmalformed.
  pose proof (records_of_keys_cases s3 bucket prefix
                (list_objects_v2 s3 bucket prefix) (fun _ H => H)) as Hkeys.
  rewrite Hmalformed in Hkeys.
  unfold main_after_job, csv_on_disk, build_csv, _iter_job_records.
  rewrite Hsplit. cbn [bind].
  destruct Hkeys as [-> | ->]; cbn [bind];
    (split; [auto | split; [discriminate | split; reflexivity]]).
Qed.

End OutputClaims.

(** The prefix with one well-formed object and one cut-off object. *)
Lemma malformed_artifact_aborts_the_read_witness :
  (output.build_csv (fun _ => EmptyString) examples.mixed_store
     "s3://out/results/" ["Language"] = Raise output.JSONDecodeError
   \/ output.build_csv (fun _ => EmptyString) examples.mixed_store
        "s3://out/results/" ["Language"] = Raise output.UnicodeDecodeError)
  /\ (forall records,
        output._iter_job_records (fun _ => EmptyString) examples.mixed_store
          "s3://out/results/" <> Ok records)
  /\ output.csv_on_disk (fun _ => EmptyString) examples.mixed_store
       "s3://out/results/" ["Language"] = None
  /\ output.main_after_job (fun _ => EmptyString) examples.mixed_store
       "s3://out/results/" ["Language"] = (1, None).
Proof.
  apply (malformed_artifact_aborts_the_read (fun _ => EmptyString)
           examples.mixed_store "s3://out/results/" "out" "results/"
           ["Language"]).
  - reflexivity.
  - reflexivity.
Defined.

(** C2, as the specification states it, fails: with one well-formed JSON
    object and one malformed artifact under the prefix the read produces no
    row at all, whatever [str] prints, though the well-formed object alone
    gives its one row. *)
Lemma malformed_artifact_is_not_skipped :
  (fun py_repr =>
     output.build_csv py_repr examples.clean_store "s3://out/results/" ["Language"])
  = (fun _ => Ok {| output.csv_header := ["Language"]; output.csv_rows := [["English"]] |})
  /\ (fun py_repr =>
        output.build_csv py_repr examples.mixed_store "s3://out/results/" ["Language"])
     = (fun _ => Raise output.JSONDecodeError)
  /\ (fun py_repr =>
        output.build_csv py_repr examples.mixed_lines_store "s3://out/results/"
          ["Language"])
     = (fun _ => Raise output.JSONDecodeError).
Proof.
  repeat split; vm_compute; reflexivity.
Qed.

(** ** The exported table *)

Lemma existsb_add_new (seen : list string) (k col : string) :
  existsb (String.eqb col) (add_new seen k)
  = existsb (String.eqb col) seen || String.eqb col k.
Proof.
  unfold add_new. destruct (existsb (String.eqb k) seen) eqn:Hk.
  - destruct (String.eqb_spec col k) as [-> |].
    + rewrite Hk. reflexivity.
    + rewrite orb_false_r. reflexivity.
  - rewrite existsb_app. simpl. rewrite orb_false_r. reflexivity.
Qed.

Lemma existsb_fold_add_new (keys : list string) (col : string) :
  forall seen,
    existsb (String.eqb col) (fold_left add_new keys seen)
    = existsb (String.eqb col) seen || existsb (String.eqb col) keys.
Proof.
  induction keys as [| k keys IH]; intros seen; simpl.
  - rewrite orb_false_r. reflexivity.
  - rewrite IH, existsb_add_new, orb_assoc. reflexivity.
Qed.

Lemma dict_has_keys (r : dict) (col : string) :
  dict_has r col = existsb (String.eqb col) (map fst r).
Proof.
  unfold dict_has. induction r as [| [k v] r IH]; simpl; [reflexivity |].
  rewrite (String.eqb_sym col k).
  destruct (String.eqb k col); [reflexivity | assumption].
Qed.

Lemma has_column_frame_of (results : list dict) (col : string) :
  has_column (frame_of results) col = occurs results col.
Proof.
  unfold has_column, frame_of, occurs. simpl.
  change (existsb (fun r => dict_has r col) results)
    with (existsb (String.eqb col) [] || existsb (fun r => dict_has r col) results).
  generalize (@nil string) as seen.
  induction results as [| r results IH]; intros seen; simpl.
  - rewrite orb_false_r. reflexivity.
  - rewrite IH, existsb_fold_add_new, dict_has_keys, orb_assoc. reflexivity.
Qed.

Lemma keys_are_columns_frame_of (results : list dict) :
  keys_are_columns (frame_of results).
Proof.
  intros r k Hr Hk. rewrite has_column_frame_of.
  apply existsb_exists. exists r. split; assumption.
Qed.

Lemma filled_cell_set_absent (r : dict) (col : string) :
  dict_has r col = false -> same_cells (dict_set r col (PStr "")) r.
Proof.
  unfold dict_has. intros Habsent col'. unfold filled_cell.
  destruct (String.eqb_spec col col') as [<- | Hne].
  - rewrite dict_get_set_same.
    destruct (dict_get r col); [discriminate | reflexivity].
  - rewrite dict_get_set_other by assumption. reflexivity.
Qed.

Lemma dict_has_set (r : dict) (col k : string) (v : pyval) :
  dict_has (dict_set r col v) k = String.eqb col k || dict_has r k.
Proof.
  unfold dict_has. destruct (String.eqb_spec col k) as [<- | Hne].
  - rewrite dict_get_set_same. reflexivity.
  - rewrite dict_get_set_other by assumption. reflexivity.
Qed.

(** Making sure a list of columns exists adds exactly the missing ones, and
    fills no cell differently. *)
Lemma ensure_columns (cols : list string) :
  forall df,
    keys_are_columns df ->
    let df' :=
      fold_left (fun d col => if has_column d col then d else set_column d col)
        cols df in
    keys_are_columns df'
    /\ (forall col,
          has_column df' col
          = has_column df col || existsb (String.eqb col) cols)
    /\ Forall2 same_cells (df_rows df') (df_rows df).
Proof.
  induction cols as [| c cols IH]; intros df Hkeys; simpl.
  - split; [assumption |]. split.
    + intros col. rewrite orb_false_r. reflexivity.
    + induction (df_rows df); constructor; [intros col; reflexivity | assumption].
  - destruct (has_column df c) eqn:Hc.
    + destruct (IH df Hkeys) as (Hk' & Hcols & Hrows).
      split; [assumption |]. split; [| assumption].
      intros col. rewrite Hcols.
      destruct (String.eqb_spec col c) as [-> |]; [| reflexivity].
      rewrite Hc. reflexivity.
    + assert (Hkeys' : keys_are_columns (set_column df c)).
      { intros r k Hr Hk. unfold set_column in Hr. simpl in Hr.
        apply in_map_iff in Hr as (r0 & <- & Hr0).
        rewrite dict_has_set in Hk.
        unfold has_column, set_column. simpl. rewrite existsb_add_new.
        destruct (String.eqb_spec c k) as [-> |].
        - rewrite String.eqb_refl. apply orb_true_r.
        - simpl in Hk. apply (Hkeys r0 k Hr0) in Hk.
          unfold has_column in Hk. rewrite Hk. reflexivity. }
      destruct (IH (set_column df c) Hkeys') as (Hk' & Hcols & Hrows).
      split; [assumption |]. split.
      * intros col. rewrite Hcols. unfold has_column at 1, set_column. simpl.
        rewrite existsb_add_new. unfold has_column.
        rewrite orb_assoc. reflexivity.
      * assert (Hset : Forall2 same_cells (df_rows (set_column df c))
                         (df_rows df)).
        { unfold set_column. simpl.
          assert (Habsent : forall r, In r (df_rows df) -> dict_has r c = false).
          { intros r Hr. destruct (dict_has r c) eqn:E; [| reflexivity].
            rewrite (Hkeys r c Hr E) in Hc. discriminate. }
          induction (df_rows df) as [| r rows IHrows]; simpl; constructor.
          - apply filled_cell_set_absent, Habsent. left. reflexivity.
          - apply IHrows. intros r' Hr'. apply Habsent. right. assumption. }
        clear - Hrows Hset.
        revert Hset. generalize (df_rows df) as rows0.
        induction Hrows as [| r' r1 rows' rows1 Hr _ IHr]; intros rows0 Hset;
          inversion Hset; subst; constructor.
        -- intros col. rewrite (Hr col). auto.
        -- apply IHr. assumption.
Qed.

Lemma rows_with_same_cells (columns : list string) (rows' rows0 : list dict) :
  Forall2 same_cells rows' rows0 ->
  map (fun r => map (filled_cell r) columns) rows'
  = map (fun r => map (filled_cell r) columns) rows0.
Proof.
  induction 1 as [| r' r rows' rows0 Hr _ IH]; simpl; [reflexivity |].
  rewrite IH. f_equal. apply map_ext. intros col. apply Hr.
Qed.

Lemma filter_all {A : Type} (f : A -> bool) (l : list A) :
  (forall x, In x l -> f x = true) -> filter f l = l.
Proof.
  induction l as [| a l IH]; intros H; simpl; [reflexivity |].
  rewrite (H a (or_introl eq_refl)), IH; [reflexivity |].
  intros x Hx. apply H. right. assumption.
Qed.

(** The header and the rows of the exported table. *)
Lemma export_table (results : list dict) (include_metadata : bool) :
  let t := fst (export_results_to_csv results include_metadata) in
  header t
  = base_columns ++ filter (occurs results) (metadata_columns include_metadata)
  /\ rows t = map (fun r => map (filled_cell r) (header t)) results.
Proof.
  unfold export_results_to_csv, ensure_base_columns. cbn [fst header rows].
  destruct (ensure_columns base_columns (frame_of results)
              (keys_are_columns_frame_of results)) as (_ & Hcols & Hrows).
  cbv zeta in Hcols, Hrows.
  set (df' := fold_left _ base_columns (frame_of results)) in *.
  assert (Hheader :
            filter (has_column df')
              (base_columns ++ metadata_columns include_metadata)
            = base_columns
              ++ filter (occurs results) (metadata_columns include_metadata)).
  { rewrite filter_app. f_equal.
    - apply filter_all. intros col Hcol. rewrite Hcols.
      assert (H : existsb (String.eqb col) base_columns = true).
      { apply existsb_exists. exists col. split; [assumption |].
        apply String.eqb_refl. }
      rewrite H. apply orb_true_r.
    - apply filter_ext_in. intros col Hcol.
      rewrite Hcols, has_column_frame_of.
      destruct include_metadata; simpl in Hcol; [| contradiction].
      destruct Hcol as [<- | [<- | [<- | [<- | []]]]];
        apply orb_false_r. }
  split.
  - exact Hheader.
  - rewrite Hheader. apply rows_with_same_cells. assumption.
Qed.

(** C10, as the code has it.  The header of the exported table is the
    document column and the ten extraction fields, followed, when metadata
    is enabled, by those of [s3_uri], [processing_status], [error_message]
    and [output_s3_uri] that are a key of at least one record; every row has
    a cell for every column of the header: the empty string where the record
    lacks the field or has [None] or NaN for it, else the record's value, a
    number or a bool as the dtype of its column has it.  The header of
    [build_csv] is the list of field names it is given, with no metadata
    column, and each of its rows has the record's value of every field, the
    empty string where the record lacks it; when [build_csv] returns, the
    file holds the header and every row. *)
Theorem exported_header_and_rows :
  (forall results include_metadata,
      let t := fst (export_results_to_csv results include_metadata) in
      header t
      = base_columns
        ++ filter (occurs results) (metadata_columns include_metadata)
      /\ rows t = map (fun r => map (filled_cell r) (header t)) results
      /\ Forall (fun row => List.length row = List.length (header t)) (rows t))
  /\ (forall r col,
        dict_has r col = false -> filled_cell r col = Object (PStr ""))
  /\ (forall r col,
        isna (dict_get r col) = true -> filled_cell r col = Object (PStr ""))
  /\ (forall r col v,
        dict_get r col = Some v ->
        isna (Some v) = false ->
        filled_cell r col
        = match v with
          | PBool _ | PInt _ | PFloat _ => Numeric v
          | _ => Object v
          end)
  /\ (forall py_repr s3 output_s3_uri fieldnames file,
        output.build_csv py_repr s3 output_s3_uri fieldnames = Ok file ->
        output.csv_header file = fieldnames
        /\ (exists records,
               output._iter_job_records py_repr s3 output_s3_uri = Ok records
               /\ output.csv_rows file
                  = map (fun record =>
                           map (output.record_get record) fieldnames)
                      records)
        /\ Forall (fun row => List.length row = List.length fieldnames)
             (output.csv_rows file)
        /\ output.csv_on_disk py_repr s3 output_s3_uri fieldnames
           = Some (fieldnames :: output.csv_rows file))
  /\ (forall record field,
        find (fun kv => String.eqb (fst kv) field) record = None ->
        output.record_get record field = "").
Proof.
  split; [| split; [| split; [| split; [| split]]]].
  - intros results include_metadata t.
    destruct (export_table results include_metadata) as [Hheader Hrows].
    fold t in Hheader, Hrows.
    split; [assumption |]. split; [assumption |].
    rewrite Hrows. apply Forall_forall. intros row Hrow.
    apply in_map_iff in Hrow as (r & <- & _). apply length_map.
  - intros r col. unfold dict_has, filled_cell.
    destruct (dict_get r col); [discriminate | reflexivity].
  - intros r col H. unfold filled_cell. rewrite H. reflexivity.
  - intros r col v Hv Hna. unfold filled_cell. rewrite Hv, Hna.
    destruct v; reflexivity.
  - intros py_repr s3 uri fieldnames file.
    unfold output.build_csv, output.csv_on_disk.
    destruct (output._iter_job_records py_repr s3 uri) as [records | e];
      cbn [bind]; [| discriminate].
    destruct (snd (output.write_lines _)) eqn:Hwritten; [discriminate |].
    intros H. inversion H; subst; clear H. cbn [output.csv_header output.csv_rows].
    split; [reflexivity |]. split; [eauto |]. split.
    + apply Forall_forall. intros row Hrow.
      apply in_map_iff in Hrow as (r & <- & _). apply length_map.
    + rewrite (write_lines_all _ Hwritten). reflexivity.
  - intros record field H. unfold output.record_get. rewrite H. reflexivity.
Qed.

Lemma exported_header_and_rows_witness :
  output.csv_header
    {| output.csv_header := ["Language"]; output.csv_rows := [["English"]] |}
  = ["Language"]
  /\ (exists records,
         output._iter_job_records (fun _ => EmptyString) examples.clean_store
           "s3://out/results/" = Ok records
         /\ output.csv_rows
              {| output.csv_header := ["Language"];
                 output.csv_rows := [["English"]] |}
            = map (fun record => map (output.record_get record) ["Language"])
                records)
  /\ Forall (fun row => List.length row = List.length ["Language"])
       (output.csv_rows
          {| output.csv_header := ["Language"];
             output.csv_rows := [["English"]] |})
  /\ output.csv_on_disk (fun _ => EmptyString) examples.clean_store
       "s3://out/results/" ["Language"]
     = Some (["Language"]
             :: output.csv_rows
                  {| output.csv_header := ["Language"];
                     output.csv_rows := [["English"]] |}).
Proof.
  apply (proj1 (proj2 (proj2 (proj2 (proj2 exported_header_and_rows))))
           (fun _ => EmptyString) examples.clean_store "s3://out/results/"
           ["Language"]).
  reflexivity.
Defined.

(** C10, as the specification states it, fails: when every one of the three
    documents succeeds, the header of the table exported with metadata
    enabled has no [error_message] column. *)
Lemma header_lacks_absent_metadata_columns :
  exists results,
    process_documents_batch examples.all_accepted examples.three_documents
      "in" examples.cfg_ok [0; 1; 2]%nat = Ok results
    /\ header (fst (export_results_to_csv results true))
       = base_columns ++ ["s3_uri"; "processing_status"; "output_s3_uri"]
    /\ header (fst (export_results_to_csv results true))
       <> base_columns ++ metadata_columns true.
Proof.
  eexists. split; [vm_compute; reflexivity |].
  split; [vm_compute; reflexivity | vm_compute; discriminate].
Qed.

(** ** A failed submission *)








(** ** The summary *)






(** ** The configuration *)





(** * Part IV: further properties of the code *)

Import further.

Local Open Scope string_scope.

(** ** Splitting and joining text *)

Lemma split_once_join (sep : ascii) (a b : string) :
  contains sep a = false ->
  split_once sep (a ++ String sep b) = (a, Some b).
Proof.
  induction a as [| c a IH]; simpl; intros H.
  - rewrite Ascii.eqb_refl. reflexivity.
  - apply orb_false_iff in H as [Hc Ha].
    rewrite Hc, (IH Ha). reflexivity.
Qed.

Lemma split_once_whole (sep : ascii) (s : string) :
  contains sep s = false -> split_once sep s = (s, None).
Proof.
  induction s as [| c s IH]; simpl; intros H; [reflexivity |].
  apply orb_false_iff in H as [Hc Hs].
  rewrite Hc, (IH Hs). reflexivity.
Qed.

(** What [split_once] returns puts the text together again, and its first
    part has no separator. *)
Lemma split_once_inverse (sep : ascii) (s : string) :
  contains sep (fst (split_once sep s)) = false
  /\ s = match snd (split_once sep s) with
         | Some b => fst (split_once sep s) ++ String sep b
         | None => fst (split_once sep s)
         end.
Proof.
  induction s as [| c s [IHc IHs]]; simpl; [auto |].
  destruct (Ascii.eqb_spec c sep) as [-> | Hne]; simpl; [auto |].
  destruct (split_once sep s) as [a [b |]]; simpl in *;
    (split; [apply orb_false_iff; split;
             [apply Ascii.eqb_neq; assumption | assumption]
            | f_equal; assumption]).
Qed.

Lemma substring_all (s : string) : String.substring 0 (String.length s) s = s.
Proof.
  induction s as [| c s IH]; simpl; [reflexivity | rewrite IH; reflexivity].
Qed.

(** A string that starts with [p] is [p] and the rest. *)
Lemma startswith_inverse (p s : string) :
  startswith p s = true ->
  s = p ++ String.substring (String.length p)
             (String.length s - String.length p) s.
Proof.
  unfold startswith. revert s.
  induction p as [| a p IH]; intros s H; simpl in *.
  - rewrite Nat.sub_0_r, substring_all. reflexivity.
  - destruct s as [| b s]; [discriminate |]. simpl in H.
    destruct (ascii_dec a b) as [<- |]; [| discriminate].
    simpl. f_equal. apply IH. assumption.
Qed.

Lemma startswith_append (p s : string) : startswith p (p ++ s) = true.
Proof.
  unfold startswith. induction p as [| a p IH]; simpl.
  - destruct s; reflexivity.
  - destruct (ascii_dec a a); [assumption | contradiction].
Qed.

Lemma substring_after (p s : string) :
  String.substring (String.length p)
    (String.length (p ++ s) - String.length p) (p ++ s) = s.
Proof.
  induction p as [| a p IH]; simpl.
  - rewrite Nat.sub_0_r. apply substring_all.
  - assumption.
Qed.

Lemma strip_scheme (s : string) :
  String.substring 5 (String.length ("s3://" ++ s) - 5) ("s3://" ++ s) = s.
Proof. exact (substring_after "s3://" s). Qed.

(** ** The two parsers of S3 URIs *)

Lemma parse_s3_uri_written (bucket prefix : string) :
  contains "/" bucket = false ->
  parse_s3_uri ("s3://" ++ bucket ++ "/" ++ prefix) = (bucket, prefix).
Proof.
  intros Hb. unfold parse_s3_uri.
  rewrite startswith_append, strip_scheme.
  change (bucket ++ "/" ++ prefix)%string
    with (bucket ++ String "/" prefix)%string.
  rewrite (split_once_join _ _ _ Hb). reflexivity.
Qed.

(** X1.  [parse_s3_uri] reads back a bucket and a prefix written as an S3 URI,
    and a bucket written alone gives the empty prefix. *)
Theorem parse_s3_uri_round_trip (bucket prefix : string) :
  contains "/" bucket = false ->
  parse_s3_uri ("s3://" ++ bucket ++ "/" ++ prefix) = (bucket, prefix)
  /\ parse_s3_uri ("s3://" ++ bucket) = (bucket, EmptyString).
Proof.
  intros Hb. split; [apply parse_s3_uri_written; assumption |].
  unfold parse_s3_uri.
  rewrite startswith_append, strip_scheme, (split_once_whole _ _ Hb).
  reflexivity.
Qed.

Lemma parse_s3_uri_round_trip_witness :
  parse_s3_uri "s3://my-bucket/documents/2024/"
  = ("my-bucket", "documents/2024/")
  /\ parse_s3_uri "s3://my-bucket" = ("my-bucket", EmptyString).
Proof.
  apply (parse_s3_uri_round_trip "my-bucket" "documents/2024/").
  reflexivity.
Defined.

(** X2.  What [parse_s3_uri] returns puts its argument together again, up to
    the optional scheme, and the bucket never has a slash. *)
Theorem parse_s3_uri_inverse (uri : string) :
  let bucket := fst (parse_s3_uri uri) in
  let prefix := snd (parse_s3_uri uri) in
  let written := if startswith "s3://" uri then "s3://" else EmptyString in
  contains "/" bucket = false
  /\ (uri = written ++ bucket ++ "/" ++ prefix
      \/ prefix = EmptyString /\ uri = written ++ bucket).
Proof.
  cbv zeta. unfold parse_s3_uri.
  destruct (startswith "s3://" uri) eqn:Hs.
  - set (rest := String.substring 5 (String.length uri - 5) uri).
    assert (Huri : uri = "s3://" ++ rest)
      by exact (startswith_inverse _ _ Hs).
    clearbody rest.
    pose proof (split_once_inverse "/" rest) as [Hno Hrest].
    destruct (split_once "/" rest) as [b [p |]]; cbn [fst snd] in *;
      subst; (split; [assumption |]).
    + left. reflexivity.
    + right. split; reflexivity.
  - pose proof (split_once_inverse "/" uri) as [Hno Hrest].
    destruct (split_once "/" uri) as [b [p |]]; cbn [fst snd] in *;
      (split; [assumption |]).
    + left. exact Hrest.
    + right. split; [reflexivity | exact Hrest].
Qed.

(** X3.  [_split_s3_uri] accepts exactly the text that starts with [s3://] and
    reads it as [parse_s3_uri] does; any other text raises [ValueError], where
    [parse_s3_uri] reads it as if the scheme were written. *)
Theorem split_s3_uri_agrees_with_parse_s3_uri (uri : string) :
  output._split_s3_uri uri
  = (if startswith "s3://" uri then Ok (parse_s3_uri uri)
     else Raise (output.ValueError ("Invalid S3 URI: " ++ uri)))
  /\ (if startswith "s3://" uri then True
      else parse_s3_uri uri = parse_s3_uri ("s3://" ++ uri)).
Proof.
  unfold output._split_s3_uri, parse_s3_uri at 1 2.
  destruct (startswith "s3://" uri) eqn:Hs; cbn [negb].
  - split; [| exact I].
    destruct (split_once "/" _) as [b [p |]]; reflexivity.
  - split; [reflexivity |].
    unfold parse_s3_uri. rewrite startswith_append, strip_scheme.
    reflexivity.
Qed.

(** X4.  A URI that [_split_s3_uri] accepts is the scheme, the bucket it
    returns, which has no slash, and after a slash the prefix it returns; the
    slash may be missing when the prefix is empty. *)
Theorem split_s3_uri_inverse (uri bucket prefix : string) :
  output._split_s3_uri uri = Ok (bucket, prefix) ->
  contains "/" bucket = false
  /\ (uri = "s3://" ++ bucket ++ "/" ++ prefix
      \/ prefix = EmptyString /\ uri = "s3://" ++ bucket).
Proof.
  unfold output._split_s3_uri.
  destruct (startswith "s3://" uri) eqn:Hs; cbn [negb]; [| discriminate].
  set (rest := String.substring 5 (String.length uri - 5) uri).
  assert (Huri : uri = "s3://" ++ rest)
    by exact (startswith_inverse _ _ Hs).
  clearbody rest.
  pose proof (split_once_inverse "/" rest) as [Hno Hrest].
  destruct (split_once "/" rest) as [b [p |]]; cbn [fst snd] in *;
    intros H; inversion H; subst; (split; [assumption |]).
  - left. reflexivity.
  - right. split; reflexivity.
Qed.

Lemma split_s3_uri_inverse_witness :
  contains "/" "out" = false
  /\ ("s3://out/results/" = "s3://" ++ "out" ++ "/" ++ "results/"
      \/ "results/" = EmptyString /\ "s3://out/results/" = "s3://" ++ "out").
Proof.
  apply (split_s3_uri_inverse "s3://out/results/" "out" "results/").
  reflexivity.
Defined.

(** ** Output file names *)

Lemma append_nil_r (s : string) : s ++ EmptyString = s.
Proof.
  induction s as [| c s IH]; simpl; [reflexivity | rewrite IH; reflexivity].
Qed.

Lemma append_assoc (a b c : string) : (a ++ b) ++ c = a ++ b ++ c.
Proof.
  induction a as [| x a IH]; simpl; [reflexivity | rewrite IH; reflexivity].
Qed.

Lemma contains_append (c : ascii) (a b : string) :
  contains c (a ++ b) = contains c a || contains c b.
Proof.
  induction a as [| x a IH]; simpl; [reflexivity |].
  rewrite IH. apply orb_assoc.
Qed.

Lemma rsplit_once_whole (sep : ascii) (s : string) :
  contains sep s = false -> rsplit_once sep s = (s, None).
Proof.
  induction s as [| c s IH]; simpl; intros H; [reflexivity |].
  apply orb_false_iff in H as [Hc Hs].
  rewrite (IH Hs), Hc. reflexivity.
Qed.

Lemma rsplit_once_join (sep : ascii) (a b : string) :
  contains sep b = false ->
  rsplit_once sep (a ++ String sep b) = (a, Some b).
Proof.
  intros Hb. induction a as [| c a IH]; simpl.
  - rewrite (rsplit_once_whole _ _ Hb), Ascii.eqb_refl. reflexivity.
  - rewrite IH. reflexivity.
Qed.

(** What [rsplit_once] returns puts the text together again. *)
Lemma rsplit_once_inverse (sep : ascii) (s : string) :
  s = match snd (rsplit_once sep s) with
      | Some b => fst (rsplit_once sep s) ++ String sep b
      | None => fst (rsplit_once sep s)
      end.
Proof.
  induction s as [| c s IH]; simpl; [reflexivity |].
  destruct (rsplit_once sep s) as [a [b |]]; simpl in *.
  - f_equal. assumption.
  - destruct (Ascii.eqb_spec c sep) as [-> | Hne]; simpl; f_equal; assumption.
Qed.

Lemma last_segment_from_whole (sep : ascii) (acc s : string) :
  contains sep s = false -> last_segment_from sep acc s = acc ++ s.
Proof.
  revert acc. induction s as [| c s IH]; simpl; intros acc H.
  - symmetry. apply append_nil_r.
  - apply orb_false_iff in H as [Hc Hs].
    rewrite Hc, (IH _ Hs), append_assoc. reflexivity.
Qed.

Lemma last_segment_whole (sep : ascii) (s : string) :
  contains sep s = false -> last_segment sep s = s.
Proof. apply last_segment_from_whole. Qed.

Lemma last_segment_from_append (sep : ascii) (acc a b : string) :
  last_segment_from sep acc (a ++ String sep b) = last_segment sep b.
Proof.
  revert acc. induction a as [| c a IH]; simpl; intros acc.
  - rewrite Ascii.eqb_refl. reflexivity.
  - destruct (Ascii.eqb c sep); apply IH.
Qed.

(** The text after the last separator is the text after the last separator
    of what follows any one separator. *)
Lemma last_segment_append (sep : ascii) (a b : string) :
  last_segment sep (a ++ String sep b) = last_segment sep b.
Proof. apply last_segment_from_append. Qed.

(** X5.  With a timestamp, [generate_output_filename] puts it before the last
    dot of the name, so that the text after the last dot, by which
    [list_s3_documents] judges a key, stays what it was; a name without a dot
    gets the timestamp at its end. *)
Theorem generate_output_filename_keeps_extension
  (timestamp stem extension : string) :
  contains "." extension = false ->
  generate_output_filename timestamp (stem ++ "." ++ extension) true
  = stem ++ "_" ++ timestamp ++ "." ++ extension
  /\ last_segment "."
       (generate_output_filename timestamp (stem ++ "." ++ extension) true)
     = extension
  /\ generate_output_filename timestamp extension true
     = extension ++ "_" ++ timestamp.
Proof.
  intros H. unfold generate_output_filename.
  change (stem ++ "." ++ extension) with (stem ++ String "." extension).
  rewrite (rsplit_once_join _ _ _ H), (rsplit_once_whole _ _ H).
  repeat split.
  change (stem ++ "_" ++ timestamp ++ "." ++ extension)
    with (stem ++ ("_" ++ timestamp) ++ String "." extension).
  rewrite <- append_assoc, last_segment_append.
  apply last_segment_whole. assumption.
Qed.

Lemma generate_output_filename_keeps_extension_witness :
  generate_output_filename "20240131_235959" ("results" ++ "." ++ "csv") true
  = "results" ++ "_" ++ "20240131_235959" ++ "." ++ "csv"
  /\ last_segment "."
       (generate_output_filename "20240131_235959" ("results" ++ "." ++ "csv")
          true)
     = "csv"
  /\ generate_output_filename "20240131_235959" "csv" true
     = "csv" ++ "_" ++ "20240131_235959".
Proof.
  apply (generate_output_filename_keeps_extension "20240131_235959" "results"
           "csv").
  reflexivity.
Defined.

(** X6.  Whatever the name, the timestamp adds its own length and one
    underscore; without the timestamp the name is returned as it is. *)
Theorem generate_output_filename_length (timestamp base_name : string) :
  String.length (generate_output_filename timestamp base_name true)
  = (String.length base_name + String.length timestamp + 1)%nat
  /\ generate_output_filename timestamp base_name false = base_name.
Proof.
  split; [| reflexivity].
  unfold generate_output_filename.
  pose proof (rsplit_once_inverse "." base_name) as H.
  destruct (rsplit_once "." base_name) as [a [b |]]; cbn [fst snd] in H.
  - rewrite H.
    change (a ++ "_" ++ timestamp ++ "." ++ b)
      with (a ++ String "_" (timestamp ++ String "." b)).
    rewrite !string_length_append. simpl String.length.
    rewrite !string_length_append. simpl String.length. lia.
  - change (base_name ++ "_" ++ timestamp)
      with (base_name ++ String "_" timestamp).
    rewrite !string_length_append. simpl String.length. lia.
Qed.

(** ** Listing the documents of a bucket *)

Lemma fold_left_keep {A : Type} (f : A -> bool) (l acc : list A) :
  fold_left (fun found x => if f x then (found ++ [x])%list else found) l acc
  = (acc ++ filter f l)%list.
Proof.
  revert acc. induction l as [| x l IH]; simpl; intros acc.
  - symmetry. apply app_nil_r.
  - rewrite IH. destruct (f x); [| reflexivity].
    rewrite <- app_assoc. reflexivity.
Qed.

Lemma scan_pages_filter (lower : string -> string)
  (supported_formats : list string) (todo : list (option (list string)))
  (documents : list string) :
  scan_pages lower supported_formats todo documents
  = (documents
     ++ filter (supported lower supported_formats)
          (all_keys {| pages := todo; failure := None |}))%list.
Proof.
  unfold all_keys. cbn [pages].
  revert documents.
  induction todo as [| [contents |] rest IH]; intros documents;
    cbn [scan_pages flat_map].
  - symmetry. apply app_nil_r.
  - rewrite IH, fold_left_keep, filter_app, app_assoc. reflexivity.
  - apply IH.
Qed.

(** X7.  [list_s3_documents] returns the supported keys of all the pages, in
    the order the service lists them: where the pages are cut makes no
    difference, and a page without [Contents] adds nothing. When the paginator
    raises, the exception is raised again and the keys found so far are lost. *)
Theorem list_s3_documents_filters_every_page (lower : string -> string)
  (p : paginator) (supported_formats : list string) :
  list_s3_documents lower p supported_formats
  = match failure p with
    | Some e => Raise e
    | None => Ok (filter (supported lower supported_formats) (all_keys p))
    end.
Proof.
  unfold list_s3_documents. destruct (failure p); [reflexivity |].
  rewrite scan_pages_filter. reflexivity.
Qed.

(** X8.  A key is judged by its text after its last dot, and a key without a
    dot by its whole text: the object named [pdf] is a document when [pdf] is
    a supported format. *)
Theorem key_is_judged_after_its_last_dot (lower : string -> string)
  (supported_formats : list string) (before after : string) :
  contains "." after = false ->
  supported lower supported_formats after
  = existsb (String.eqb (lower after)) supported_formats
  /\ supported lower supported_formats (before ++ "." ++ after)
     = supported lower supported_formats after.
Proof.
  intros H. unfold supported.
  change (before ++ "." ++ after) with (before ++ String "." after).
  rewrite last_segment_append, (last_segment_whole _ _ H). auto.
Qed.

Lemma key_is_judged_after_its_last_dot_witness :
  supported (fun s => s) ["pdf"; "png"] "pdf"
  = existsb (String.eqb "pdf") ["pdf"; "png"]
  /\ supported (fun s => s) ["pdf"; "png"]
       ("scans/2024.01/form" ++ "." ++ "pdf")
     = supported (fun s => s) ["pdf"; "png"] "pdf".
Proof.
  apply (key_is_judged_after_its_last_dot (fun s => s) ["pdf"; "png"]
           "scans/2024.01/form" "pdf").
  reflexivity.
Defined.

(** ** Uploading the CSV file *)

Lemma split_all_no_separator (sep : ascii) (s : string) :
  Forall (fun part => contains sep part = false) (split_all sep s).
Proof.
  induction s as [| c s IH]; simpl.
  - constructor; [reflexivity | constructor].
  - destruct (Ascii.eqb_spec c sep) as [-> | Hne].
    + constructor; [reflexivity | assumption].
    + destruct (split_all sep s) as [| head tail].
      * constructor; [| constructor]. simpl.
        rewrite orb_false_r. apply Ascii.eqb_neq. assumption.
      * inversion IH; subst. constructor; [| assumption].
        simpl. apply orb_false_iff. split; [| assumption].
        apply Ascii.eqb_neq. assumption.
Qed.

Lemma last_forall {A : Type} (P : A -> Prop) (l : list A) (d : A) :
  P d -> Forall P l -> P (last l d).
Proof.
  intros Hd. induction 1 as [| x l Hx Hl IH]; simpl; [assumption |].
  destruct l; [assumption | exact IH].
Qed.

Lemma forall_filter {A : Type} (P : A -> Prop) (f : A -> bool) (l : list A) :
  Forall P l -> Forall P (filter f l).
Proof.
  induction 1 as [| x l Hx Hl IH]; simpl; [constructor |].
  destruct (f x); [constructor |]; assumption.
Qed.

(** The file name of a path has no slash. *)
Lemma path_name_no_slash (local_file : string) :
  contains "/" (path_name local_file) = false.
Proof.
  unfold path_name.
  apply (last_forall (fun part => contains "/" part = false));
    [reflexivity |].
  apply forall_filter, split_all_no_separator.
Qed.

Lemma rstrip_trailing (c : ascii) (s : string) :
  rstrip c (s ++ String c EmptyString) = rstrip c s.
Proof.
  induction s as [| a s IH]; simpl.
  - rewrite Ascii.eqb_refl. reflexivity.
  - rewrite IH. reflexivity.
Qed.

(** X9.  When the upload goes through, [upload_csv_to_s3] returns a URI that
    [parse_s3_uri] reads back as the bucket and the key the file was stored
    under, and whose text after the last slash is the file's name. *)
Theorem upload_csv_to_s3_returns_where_it_stored
  (upload_file : string -> string -> string -> result exn unit)
  (local_file bucket prefix : string) :
  contains "/" bucket = false ->
  upload_file local_file bucket (upload_key local_file prefix) = Ok tt ->
  exists s3_uri,
    upload_csv_to_s3 upload_file local_file bucket prefix = Ok s3_uri
    /\ parse_s3_uri s3_uri = (bucket, upload_key local_file prefix)
    /\ last_segment "/" s3_uri = path_name local_file.
Proof.
  intros Hb Hup. unfold upload_csv_to_s3. rewrite Hup. cbn [bind].
  eexists. split; [reflexivity |]. split.
  - apply parse_s3_uri_written. assumption.
  - unfold upload_key.
    change ("s3://" ++ bucket ++ "/" ++ rstrip "/" prefix ++ "/"
            ++ path_name local_file)
      with ("s3://" ++ bucket ++ "/" ++ rstrip "/" prefix
            ++ String "/" (path_name local_file)).
    rewrite <- !append_assoc, last_segment_append.
    apply last_segment_whole, path_name_no_slash.
Qed.

Lemma upload_csv_to_s3_returns_where_it_stored_witness :
  exists s3_uri,
    upload_csv_to_s3 uploaded "out/results_20240131.csv" "my-bucket" "results/"
    = Ok s3_uri
    /\ parse_s3_uri s3_uri
       = ("my-bucket", upload_key "out/results_20240131.csv" "results/")
    /\ last_segment "/" s3_uri = path_name "out/results_20240131.csv".
Proof.
  apply (upload_csv_to_s3_returns_where_it_stored uploaded
           "out/results_20240131.csv" "my-bucket" "results/");
    reflexivity.
Defined.

(** X10.  Slashes at the end of the prefix do not change the key, and the key
    under the empty prefix starts with a slash. *)
Theorem upload_key_ignores_trailing_slashes (local_file prefix : string) :
  upload_key local_file (prefix ++ "/") = upload_key local_file prefix
  /\ upload_key local_file EmptyString = "/" ++ path_name local_file.
Proof.
  unfold upload_key. rewrite rstrip_trailing. auto.
Qed.

(** ** Retrying with backoff *)

Local Open Scope list_scope.

Lemma total_app (l l' : list Z) : total (l ++ l') = total l + total l'.
Proof.
  unfold total. induction l as [| x l IH]; simpl; [reflexivity | lia].
Qed.

Lemma backoff_succ (delay : Z) (k : nat) :
  backoff delay (S k) = backoff delay k ++ [delay * 2 ^ Z.of_nat k].
Proof. unfold backoff. rewrite seq_S, map_app. reflexivity. Qed.

(** The sleeps of [k] failed attempts add up to [delay * (2^k - 1)]. *)
Lemma total_backoff (delay : Z) (k : nat) :
  total (backoff delay k) = delay * (2 ^ Z.of_nat k - 1).
Proof.
  induction k as [| k IH]; [unfold backoff, total; simpl; lia |].
  rewrite backoff_succ, total_app, IH.
  rewrite Nat2Z.inj_succ, Z.pow_succ_r by lia.
  unfold total. cbn [fold_right]. ring.
Qed.

Lemma backoff_from (delay : Z) (a d : nat) :
  backoff delay (a + d)
  = backoff delay a ++ map (fun i => delay * 2 ^ Z.of_nat i) (seq a d).
Proof. unfold backoff. rewrite seq_app, map_app. reflexivity. Qed.

Section Retry.

Context {A : Type}.
Variable func : nat -> result exn A.
Variables max_retries delay : Z.

Local Abbreviation waits a d :=
  (map (fun i => delay * 2 ^ Z.of_nat i) (seq a d)).

Lemma retry_from_succeeds (value : A) (d : nat) :
  forall (a todo : nat) (slept : list Z),
    func (a + d)%nat = Ok value ->
    (forall i, (a <= i < a + d)%nat -> exists e, func i = Raise e) ->
    (forall i, (a <= i < a + d)%nat ->
               sleep_error (delay * 2 ^ Z.of_nat i) = None) ->
    Z.of_nat (a + d) < max_retries ->
    (d < todo)%nat ->
    retry_from func max_retries delay todo a slept
    = {| outcome := Ok (Some value); calls := S (a + d);
         sleeps := slept ++ waits a d |}.
Proof.
  induction d as [| d IH]; intros a todo slept Hv Hfail Hsleep Hmax Htodo;
    (destruct todo as [| todo]; [lia |]); cbn [retry_from].
  - rewrite Nat.add_0_r in *. rewrite Hv. cbn [seq map].
    rewrite app_nil_r. reflexivity.
  - destruct (Hfail a ltac:(lia)) as [e He]. rewrite He.
    replace (Z.of_nat a =? max_retries - 1)%Z with false
      by (symmetry; apply Z.eqb_neq; lia).
    rewrite (Hsleep a) by lia.
    rewrite (IH (S a) todo).
    + rewrite <- app_assoc. cbn [seq map app].
      rewrite Nat.add_succ_r. reflexivity.
    + rewrite <- Hv. f_equal. lia.
    + intros i Hi. apply Hfail. lia.
    + intros i Hi. apply Hsleep. lia.
    + lia.
    + lia.
Qed.

Lemma retry_from_exhausts (errors : nat -> exn) (d : nat) :
  forall (a todo : nat) (slept : list Z),
    (forall i, (a <= i <= a + d)%nat -> func i = Raise (errors i)) ->
    (forall i, (a <= i < a + d)%nat ->
               sleep_error (delay * 2 ^ Z.of_nat i) = None) ->
    Z.of_nat (a + d) = max_retries - 1 ->
    (d < todo)%nat ->
    retry_from func max_retries delay todo a slept
    = {| outcome := Raise (errors (a + d)%nat); calls := S (a + d);
         sleeps := slept ++ waits a d |}.
Proof.
  induction d as [| d IH]; intros a todo slept Hfail Hsleep Hmax Htodo;
    (destruct todo as [| todo]; [lia |]); cbn [retry_from];
    rewrite (Hfail a) by lia.
  - rewrite Nat.add_0_r in *.
    replace (Z.of_nat a =? max_retries - 1)%Z with true
      by (symmetry; apply Z.eqb_eq; lia).
    cbn [seq map]. rewrite app_nil_r. reflexivity.
  - replace (Z.of_nat a =? max_retries - 1)%Z with false
      by (symmetry; apply Z.eqb_neq; lia).
    rewrite (Hsleep a) by lia.
    rewrite (IH (S a) todo).
    + rewrite <- app_assoc. cbn [seq map app].
      rewrite Nat.add_succ_r. reflexivity.
    + intros i Hi. apply Hfail. lia.
    + intros i Hi. apply Hsleep. lia.
    + lia.
    + lia.
Qed.

Lemma retry_from_step (todo a : nat) (slept : list Z) :
  retry_from func max_retries delay (S todo) a slept
  = match func a with
    | Ok value =>
        {| outcome := Ok (Some value); calls := S a; sleeps := slept |}
    | Raise e =>
        if (Z.of_nat a =? max_retries - 1)%Z then
          {| outcome := Raise e; calls := S a; sleeps := slept |}
        else
          match sleep_error (delay * 2 ^ Z.of_nat a) with
          | Some raised =>
              {| outcome := Raise raised; calls := S a; sleeps := slept |}
          | None =>
              retry_from func max_retries delay todo (S a)
                (slept ++ [delay * 2 ^ Z.of_nat a])
          end
    end.
Proof. reflexivity. Qed.

(** Whatever [func] does, a loop with attempts left calls it at least once,
    sleeps once after every call but the last, and does not fall through. *)
Lemma retry_from_accounts (todo : nat) :
  forall (a : nat) (slept : list Z),
    (a + S todo)%nat = Z.to_nat max_retries ->
    let run := retry_from func max_retries delay (S todo) a slept in
    exists k, (a <= k <= a + todo)%nat
              /\ calls run = S k
              /\ sleeps run = slept ++ waits a (k - a)
              /\ outcome run <> Ok None.
Proof.
  induction todo as [| todo IH]; intros a slept Hmax run; subst run;
    rewrite retry_from_step.
  - cbn [retry_from]. exists a. rewrite Nat.sub_diag. cbn [seq map].
    rewrite app_nil_r.
    destruct (func a) as [value | e]; cbn [calls sleeps outcome].
    + repeat split; [lia | lia | discriminate].
    + replace (Z.of_nat a =? max_retries - 1)%Z with true
        by (symmetry; apply Z.eqb_eq; lia).
      cbn [calls sleeps outcome]. repeat split; [lia | lia | discriminate].
  - destruct (func a) as [value | e].
    + exists a. rewrite Nat.sub_diag. cbn [seq map calls sleeps outcome].
      rewrite app_nil_r. repeat split; [lia | lia | discriminate].
    + replace (Z.of_nat a =? max_retries - 1)%Z with false
        by (symmetry; apply Z.eqb_neq; lia).
      destruct (sleep_error (delay * 2 ^ Z.of_nat a)) as [raised |].
      * exists a. rewrite Nat.sub_diag. cbn [seq map calls sleeps outcome].
        rewrite app_nil_r. repeat split; [lia | lia | discriminate].
      * destruct (IH (S a) (slept ++ [delay * 2 ^ Z.of_nat a]) ltac:(lia))
          as (k & Hk & Hcalls & Hsleeps & Hout).
        exists k. repeat split; [lia | lia | assumption | | assumption].
        rewrite Hsleeps, <- app_assoc.
        replace (k - a)%nat with (S (k - S a)) by lia.
        reflexivity.
Qed.

End Retry.

(** X11.  When the first [k] calls of [func] raise and the next one returns,
    with [k] below [max_retries] and every sleep accepted,
    [retry_with_backoff] returns that value after [k + 1] calls, having slept
    [delay], [2 * delay], ..., [2^(k-1) * delay]: [delay * (2^k - 1)] seconds
    in all. *)
Theorem retry_with_backoff_returns_first_success {A : Type}
  (func : nat -> result exn A) (max_retries delay : Z) (k : nat) (value : A) :
  Z.of_nat k < max_retries ->
  (forall i, (i < k)%nat -> exists e, func i = Raise e) ->
  func k = Ok value ->
  (forall i, (i < k)%nat -> sleep_error (delay * 2 ^ Z.of_nat i) = None) ->
  let run := retry_with_backoff func max_retries delay in
  outcome run = Ok (Some value)
  /\ calls run = S k
  /\ sleeps run = backoff delay k
  /\ total (sleeps run) = delay * (2 ^ Z.of_nat k - 1).
Proof.
  intros Hmax Hfail Hv Hsleep run. subst run. unfold retry_with_backoff.
  rewrite (retry_from_succeeds func max_retries delay value k 0); cbn [Nat.add].
  - cbn [outcome calls sleeps app]. repeat split. apply total_backoff.
  - assumption.
  - intros i Hi. apply Hfail. lia.
  - intros i Hi. apply Hsleep. lia.
  - assumption.
  - lia.
Qed.

Lemma retry_with_backoff_returns_first_success_witness :
  let run := retry_with_backoff third_time_lucky 5 3 in
  outcome run = Ok (Some "done")
  /\ calls run = 3%nat
  /\ sleeps run = backoff 3 2
  /\ total (sleeps run) = 3 * (2 ^ Z.of_nat 2 - 1).
Proof.
  apply (retry_with_backoff_returns_first_success third_time_lucky 5 3 2
           "done").
  - reflexivity.
  - intros [| [| i]] Hi; [eexists; reflexivity | eexists; reflexivity | lia].
  - reflexivity.
  - intros [| [| i]] Hi; [reflexivity | reflexivity | lia].
Defined.

(** X12.  When all the [max_retries] calls of [func] raise, with every sleep
    accepted, [retry_with_backoff] raises what the last call raised, after
    [max_retries] calls and [max_retries - 1] sleeps: there is no sleep after
    the last call. *)
Theorem retry_with_backoff_raises_the_last_failure {A : Type}
  (func : nat -> result exn A) (delay : Z) (n : nat) (errors : nat -> exn) :
  (forall i, (i <= n)%nat -> func i = Raise (errors i)) ->
  (forall i, (i < n)%nat -> sleep_error (delay * 2 ^ Z.of_nat i) = None) ->
  let run := retry_with_backoff func (Z.of_nat (S n)) delay in
  outcome run = Raise (errors n)
  /\ calls run = S n
  /\ sleeps run = backoff delay n.
Proof.
  intros Hfail Hsleep run. subst run. unfold retry_with_backoff.
  rewrite (retry_from_exhausts func (Z.of_nat (S n)) delay errors n 0);
    cbn [Nat.add].
  - cbn [outcome calls sleeps app]. repeat split.
  - intros i Hi. apply Hfail. lia.
  - intros i Hi. apply Hsleep. lia.
  - lia.
  - lia.
Qed.

Lemma retry_with_backoff_raises_the_last_failure_witness :
  let run :=
    retry_with_backoff always_failing (Z.of_nat 3) 2 in
  outcome run = Raise (ClientError "2")
  /\ calls run = 3%nat
  /\ sleeps run = backoff 2 2.
Proof.
  apply (retry_with_backoff_raises_the_last_failure always_failing 2 2
           (fun k => ClientError (str_int (Z.of_nat k)))).
  - intros i Hi. reflexivity.
  - intros [| [| i]] Hi; [reflexivity | reflexivity | lia].
Defined.

(** X13.  Whatever [func] does, [retry_with_backoff] calls it at most
    [max_retries] times, sleeps once after every call but the last, each sleep
    twice as long as the one before, and returns [None] without a call exactly
    when [max_retries] is not positive. *)
Theorem retry_with_backoff_accounts {A : Type}
  (func : nat -> result exn A) (max_retries delay : Z) :
  let run := retry_with_backoff func max_retries delay in
  Z.of_nat (calls run) <= Z.max 0 max_retries
  /\ sleeps run = backoff delay (Nat.pred (calls run))
  /\ (outcome run = Ok None <-> max_retries <= 0)
  /\ (max_retries <= 0 -> calls run = 0%nat).
Proof.
  intros run. subst run. unfold retry_with_backoff.
  destruct (Z.to_nat max_retries) as [| todo] eqn:Hmax.
  - cbn [retry_from outcome calls sleeps Nat.pred].
    repeat split; try lia; reflexivity.
  - destruct (retry_from_accounts func max_retries delay todo 0 [])
      as (k & Hk & Hcalls & Hsleeps & Hout); [lia |].
    rewrite Hcalls, Hsleeps. cbn [Nat.pred app].
    rewrite Nat.sub_0_r.
    repeat split; try lia; try reflexivity.
    intros H. contradiction.
Qed.

(** X14.  A negative [delay] turns the first failure into the exception of
    [time.sleep]: [func] is called once, and what it raised is not what the
    caller sees. *)
Theorem retry_with_backoff_negative_delay {A : Type}
  (func : nat -> result exn A) (max_retries delay : Z) (e : exn) :
  delay < 0 ->
  1 < max_retries ->
  func 0%nat = Raise e ->
  let run := retry_with_backoff func max_retries delay in
  exists raised,
    sleep_error delay = Some raised
    /\ outcome run = Raise raised
    /\ calls run = 1%nat
    /\ sleeps run = [].
Proof.
  intros Hdelay Hmax He run. subst run. unfold retry_with_backoff.
  destruct (Z.to_nat max_retries) as [| todo] eqn:Htodo; [lia |].
  cbn [retry_from]. rewrite He.
  replace (Z.of_nat 0 =? max_retries - 1)%Z with false
    by (symmetry; apply Z.eqb_neq; lia).
  change (2 ^ Z.of_nat 0) with 1. rewrite Z.mul_1_r.
  assert (exists raised, sleep_error delay = Some raised) as [raised Hr].
  { unfold sleep_error.
    destruct (_ || _); [eexists; reflexivity |].
    replace (delay <? 0)%Z with true by (symmetry; apply Z.ltb_lt; lia).
    eexists; reflexivity. }
  exists raised. rewrite Hr. repeat split.
Qed.

Lemma retry_with_backoff_negative_delay_witness :
  let run := retry_with_backoff always_failing 3 (-1) in
  exists raised,
    sleep_error (-1) = Some raised
    /\ outcome run = Raise raised
    /\ calls run = 1%nat
    /\ sleeps run = [].
Proof.
  apply (retry_with_backoff_negative_delay always_failing 3 (-1)
           (ClientError "0")); [lia | lia | reflexivity].
Defined.

(** ** The poller, answer by answer *)

Lemma wait_for_job_completion_returns (svc : service)
  (invocation_arn : string) (poll_interval timeout : Z) (resp : response) :
  fst (wait_for_job_completion svc invocation_arn poll_interval timeout)
  = Ok resp ->
  status resp = Some "SUCCESS"%string
  /\ exists k,
       queries (snd (wait_for_job_completion svc invocation_arn poll_interval
                       timeout)) = S k
       /\ get_data_automation_status svc k = Ok resp
       /\ (forall i, (i < k)%nat ->
                     retried (get_data_automation_status svc i) = true)
       /\ reading svc poll_interval k <= timeout * Zpos (hz svc).
Proof.
  destruct (wait_for_job_completion_trace svc invocation_arn poll_interval
              timeout)
    as (n & Hre & Hread & [(_ & ->) | [(Hin & Hno & ->)
                                     | (_ & _ & e & _ & ->)]]);
    cbn [fst snd]; try discriminate.
  unfold verdict, state_after. cbn [queries].
  destruct (get_data_automation_status svc n) as [r |] eqn:Hanswer;
    [| discriminate].
  destruct (status r) as [s |] eqn:Hs; [| discriminate].
  destruct (String.eqb_spec s "SUCCESS") as [-> |]; [| discriminate].
  intros H. inversion H; subst; clear H.
  split; [assumption |]. exists n. auto.
Qed.

(** X15.  A response that [wait_for_job_completion] returns is the answer to
    its last status query and has the status SUCCESS; every answer before it
    was one the poller retries, and the query was issued within the deadline. *)
Theorem poller_returns_the_successful_answer (svc : service)
  (invocation_arn : string) (poll_interval timeout : Z) (resp : response) :
  fst (wait_for_job_completion svc invocation_arn poll_interval timeout)
  = Ok resp ->
  status resp = Some "SUCCESS"%string
  /\ exists k,
       queries (snd (wait_for_job_completion svc invocation_arn poll_interval
                       timeout)) = S k
       /\ get_data_automation_status svc k = Ok resp
       /\ (forall i, (i < k)%nat ->
                     retried (get_data_automation_status svc i) = true)
       /\ reading svc poll_interval k <= timeout * Zpos (hz svc).
Proof. apply wait_for_job_completion_returns. Qed.

Lemma poller_returns_the_successful_answer_witness :
  status answer_with_dict = Some "SUCCESS"%string
  /\ exists k,
       queries (snd (wait_for_job_completion svc_pending_twice "arn:job/1" 5
                       300)) = S k
       /\ get_data_automation_status svc_pending_twice k = Ok answer_with_dict
       /\ (forall i, (i < k)%nat ->
                     retried (get_data_automation_status svc_pending_twice i)
                     = true)
       /\ reading svc_pending_twice 5 k <= 300 * Zpos (hz svc_pending_twice).
Proof.
  apply (poller_returns_the_successful_answer svc_pending_twice "arn:job/1"
           5 300 answer_with_dict).
  vm_compute. reflexivity.
Defined.

(** X16.  When [time.sleep] accepts the poll interval, the first answer
    the poller does not retry decides the call, if its query comes within
    the deadline: a SUCCESS response is returned, a FAILED one raises
    [RuntimeError] with the error of the response, and an exception other
    than a client error is raised as it is. *)
Theorem first_answer_not_retried_decides (svc : service)
  (invocation_arn : string) (poll_interval timeout : Z) (k : nat) :
  sleep_accepted svc poll_interval ->
  (forall i, (i < k)%nat ->
             retried (get_data_automation_status svc i) = true) ->
  retried (get_data_automation_status svc k) = false ->
  reading svc poll_interval k <= timeout * Zpos (hz svc) ->
  fst (wait_for_job_completion svc invocation_arn poll_interval timeout)
  = verdict (get_data_automation_status svc k)
  /\ queries (snd (wait_for_job_completion svc invocation_arn poll_interval
                     timeout)) = S k.
Proof.
  intros Hacc Hre Hk Hin.
  pose proof (sleep_error_accepts _ (proj1 Hacc)) as Hpi.
  destruct (wait_for_job_completion_accepted svc invocation_arn poll_interval
              timeout Hacc) as (n & Hre' & Hread & Hend).
  assert (Hn : n = k).
  { destruct (Nat.lt_trichotomy n k) as [Hlt | [Heq | Hgt]];
      [exfalso | assumption | exfalso].
    - destruct Hend as [(Hpast & _) | (_ & Hno & _)].
      + pose proof (reading_monotone svc poll_interval n k Hpi). lia.
      + rewrite (Hre n Hlt) in Hno. discriminate.
    - rewrite (Hre' k Hgt) in Hk. discriminate. }
  subst n.
  destruct Hend as [(Hpast & _) | (_ & _ & ->)]; [lia |].
  split; reflexivity.
Qed.

Lemma first_answer_not_retried_decides_witness :
  fst (wait_for_job_completion examples.svc_succeeds "arn:job/1" 5 300)
  = verdict (get_data_automation_status examples.svc_succeeds 1)
  /\ queries (snd (wait_for_job_completion examples.svc_succeeds "arn:job/1"
                     5 300)) = 2%nat.
Proof.
  apply (first_answer_not_retried_decides examples.svc_succeeds "arn:job/1"
           5 300 1).
  - split; [reflexivity | intros k; reflexivity].
  - intros [| i] Hi; [reflexivity | lia].
  - reflexivity.
  - vm_compute. discriminate.
Defined.

(** X17.  With a positive poll interval the poller issues at most [timeout /
    poll_interval + 1] status queries, whatever the service answers and
    however fast the clock runs. *)
Theorem poller_asks_a_bounded_number_of_queries (svc : service)
  (invocation_arn : string) (poll_interval timeout : Z) :
  0 < poll_interval ->
  0 <= timeout ->
  Z.of_nat (queries (snd (wait_for_job_completion svc invocation_arn
                            poll_interval timeout)))
  <= timeout / poll_interval + 1.
Proof.
  intros Hpi Hto.
  pose proof (Z.div_pos timeout poll_interval Hto Hpi) as Hdiv.
  pose proof (Pos2Z.is_pos (hz svc)) as Hhz.
  assert (Hbound : forall m,
             reading svc poll_interval m <= timeout * Zpos (hz svc) ->
             Z.of_nat m <= timeout / poll_interval).
  { intros m Hm.
    pose proof (reading_at_least svc poll_interval m ltac:(lia)) as Hlow.
    assert (Hkp : Z.of_nat m * poll_interval <= timeout) by nia.
    apply Z.div_le_lower_bound; lia. }
  destruct (wait_for_job_completion_trace svc invocation_arn poll_interval
              timeout)
    as (n & _ & Hread & [(_ & ->) | [(Hin & _ & ->)
                                    | (Hin & _ & e & _ & ->)]]);
    unfold state_after; cbn [snd queries].
  - destruct n as [| m]; [lia |].
    specialize (Hbound m (Hread m (Nat.lt_succ_diag_r m))). lia.
  - specialize (Hbound n Hin). lia.
  - specialize (Hbound n Hin). lia.
Qed.

Lemma poller_asks_a_bounded_number_of_queries_witness :
  Z.of_nat (queries (snd (wait_for_job_completion examples.svc_in_progress
                            "arn:job/1" 5 12)))
  <= 12 / 5 + 1.
Proof.
  apply (poller_asks_a_bounded_number_of_queries examples.svc_in_progress
           "arn:job/1" 5 12); lia.
Defined.

(** ** Extraction and the worker's record *)

Local Open Scope string_scope.

(** X18.  When the output of a response is a dict, the record is the document
    and the status [success], the output location when the response has one,
    and the ten extraction fields in their order, each with the value of the
    output or the empty string: the other keys of the output are dropped. *)
Theorem extraction_copies_the_ten_fields (r : response)
  (document_key : string) (d : dict) :
  output r = Some (PDict d) ->
  extract_results_from_response r document_key
  = ([("document", PStr document_key); ("processing_status", PStr "success")]
     ++ output_location r
     ++ map (fun field => (field, dict_get_default d field (PStr "")))
          extraction_fields)%list.
Proof.
  intros H. unfold extract_results_from_response, extract_body, output_location.
  rewrite H. destruct (outputConfiguration r) as [[uri |] |]; reflexivity.
Qed.

Lemma extraction_copies_the_ten_fields_witness :
  extract_results_from_response answer_with_dict "a.pdf"
  = ([("document", PStr "a.pdf"); ("processing_status", PStr "success")]
     ++ output_location answer_with_dict
     ++ map (fun field =>
               (field,
                dict_get_default [("Language", PStr "English");
                                  ("Pages", PInt 3)] field (PStr "")))
          extraction_fields)%list.
Proof.
  apply (extraction_copies_the_ten_fields answer_with_dict "a.pdf"
           [("Language", PStr "English"); ("Pages", PInt 3)]).
  reflexivity.
Defined.

(** X19.  An output that is a string is decoded as JSON, and the record is
    that of the decoded value; when the text does not decode, or decodes to a
    string, the record is an error record, since a string has no [get]. *)
Theorem text_output_is_decoded (r : response) (document_key text : string) :
  output r = Some (PStr text) ->
  extract_results_from_response r document_key
  = match Json.loads text with
    | None | Some (PStr _) => no_get document_key "str"
    | Some v => extract_results_from_response (with_output r v) document_key
    end.
Proof.
  intros H. unfold extract_results_from_response, extract_body, with_output.
  rewrite H. cbn [output outputConfiguration].
  destruct (Json.loads text) as [[| b | z | lit | s | items | items] |];
    reflexivity.
Qed.

Lemma text_output_is_decoded_witness :
  extract_results_from_response answer_with_text "a.pdf"
  = match Json.loads examples.well_formed_text with
    | None | Some (PStr _) => no_get "a.pdf" "str"
    | Some v =>
        extract_results_from_response (with_output answer_with_text v) "a.pdf"
    end.
Proof.
  apply (text_output_is_decoded answer_with_text "a.pdf"
           examples.well_formed_text).
  reflexivity.
Defined.

(** The record of [extract_results_from_response] names its document and
    is either a success without an error message or an error with one. *)
Lemma extract_results_status (r : response) (document_key : string) :
  dict_get (extract_results_from_response r document_key) "document"
  = Some (PStr document_key)
  /\ (dict_get (extract_results_from_response r document_key)
        "processing_status" = Some (PStr "success")
      /\ dict_has (extract_results_from_response r document_key)
           "error_message" = false
      \/ dict_get (extract_results_from_response r document_key)
           "processing_status" = Some (PStr "error")
         /\ dict_has (extract_results_from_response r document_key)
              "error_message" = true).
Proof.
  unfold extract_results_from_response, extract_body.
  destruct (output r) as [output_data |].
  - match goal with
    | |- context [match ?v with PDict _ => _ | _ => _ end] =>
        destruct v as [| b | z | lit | s | items | d]
    end;
      try (split; [reflexivity | right; split; reflexivity]).
    destruct (outputConfiguration r) as [[uri |] |];
      (split; [reflexivity | left; split; reflexivity]).
  - destruct (outputConfiguration r) as [[uri |] |];
      (split; [reflexivity | left; split; reflexivity]).
Qed.

Lemma process_single_document_status (j : job) (bucket key : string)
  (cfg : config) :
  let record := returned (process_single_document j bucket key cfg) in
  dict_get record "document" = Some (PStr (last_segment "/" key))
  /\ dict_get record "s3_uri" = Some (PStr (s3_uri_of bucket key))
  /\ (is_success record = true /\ dict_has record "error_message" = false
      \/ dict_get record "processing_status" = Some (PStr "error")
         /\ dict_has record "error_message" = true).
Proof.
  cbv zeta. unfold process_single_document, s3_uri_of.
  assert (Herr : forall document s3_uri message,
             dict_get (error_record document s3_uri message) "document"
             = Some (PStr document)
             /\ dict_get (error_record document s3_uri message) "s3_uri"
                = Some (PStr s3_uri)
             /\ (is_success (error_record document s3_uri message) = true
                 /\ dict_has (error_record document s3_uri message)
                      "error_message" = false
                 \/ dict_get (error_record document s3_uri message)
                      "processing_status" = Some (PStr "error")
                    /\ dict_has (error_record document s3_uri message)
                         "error_message" = true)).
  { intros. split; [reflexivity |]. split; [reflexivity |].
    right. split; reflexivity. }
  destruct (invoke_document_processing j _) as [[arn u | u err] | e];
    cbn [returned]; try apply Herr.
  destruct (processing cfg) as [p |]; cbn [returned]; [| apply Herr].
  destruct (wait_for_job_completion _ _ _ _) as [[resp | e] st];
    cbn [returned]; [| apply Herr].
  destruct (extract_results_status resp (last_segment "/" key))
    as (Hdoc & Hstatus).
  split; [| split].
  - rewrite dict_get_set_other by discriminate. assumption.
  - apply dict_get_set_same.
  - unfold is_success. rewrite dict_has_set.
    rewrite dict_get_set_other by discriminate.
    destruct Hstatus as [[Hs He] | [Hs He]]; rewrite Hs, He; auto.
Qed.

(** X20.  Whichever way a worker ends, its record names the document by the
    text after the last slash of the key, carries the document's S3 URI, and
    is either a success without an error message or an error with one. *)
Theorem worker_record_is_success_or_error (j : job) (bucket key : string)
  (cfg : config) :
  let record := returned (process_single_document j bucket key cfg) in
  dict_get record "document" = Some (PStr (last_segment "/" key))
  /\ dict_get record "s3_uri" = Some (PStr (s3_uri_of bucket key))
  /\ (is_success record = true /\ dict_has record "error_message" = false
      \/ dict_get record "processing_status" = Some (PStr "error")
         /\ dict_has record "error_message" = true).
Proof. apply process_single_document_status. Qed.

(** X21.  A success record comes only from a job whose submission was
    accepted, whose poller returned a response, which is an answer of the
    service with the status SUCCESS, and from which the extraction made a
    success record. *)
Theorem success_record_comes_from_a_successful_job (j : job)
  (bucket key : string) (cfg : config) :
  is_success (returned (process_single_document j bucket key cfg)) = true ->
  exists submitted arn p resp,
    invoke_data_automation_async j = Ok submitted
    /\ invocationArn submitted = Some arn
    /\ processing cfg = Some p
    /\ fst (wait_for_job_completion (svc j) arn (poll_interval p) (timeout p))
       = Ok resp
    /\ status resp = Some "SUCCESS"
    /\ (exists k, get_data_automation_status (svc j) k = Ok resp)
    /\ returned (process_single_document j bucket key cfg)
       = dict_set (extract_results_from_response resp (last_segment "/" key))
           "s3_uri" (PStr (s3_uri_of bucket key))
    /\ is_success (extract_results_from_response resp (last_segment "/" key))
       = true.
Proof.
  unfold process_single_document, invoke_document_processing, s3_uri_of.
  destruct (invoke_data_automation_async j) as [submitted | e].
  - destruct (invocationArn submitted) as [arn |] eqn:Harn;
      [| intros H; discriminate H].
    destruct (processing cfg) as [p |]; [| intros H; discriminate H].
    destruct (wait_for_job_completion (svc j) arn (poll_interval p) (timeout p))
      as [[resp | e] st] eqn:Hrun; [| intros H; discriminate H].
    cbn [returned]. intros H.
    assert (Hfst : fst (wait_for_job_completion (svc j) arn (poll_interval p)
                          (timeout p)) = Ok resp)
      by (rewrite Hrun; reflexivity).
    destruct (wait_for_job_completion_returns _ _ _ _ _ Hfst)
      as (Hs & k & _ & Hk & _).
    exists submitted, arn, p, resp.
    repeat split; try assumption; try reflexivity; [eauto |].
    unfold is_success in *.
    rewrite dict_get_set_other in H by discriminate. assumption.
  - destruct e; intros H; discriminate H.
Qed.

Lemma success_record_comes_from_a_successful_job_witness :
  exists submitted arn p resp,
    invoke_data_automation_async examples.accepted = Ok submitted
    /\ invocationArn submitted = Some arn
    /\ processing examples.cfg_ok = Some p
    /\ fst (wait_for_job_completion (svc examples.accepted) arn
              (poll_interval p) (timeout p))
       = Ok resp
    /\ status resp = Some "SUCCESS"
    /\ (exists k,
          get_data_automation_status (svc examples.accepted) k = Ok resp)
    /\ returned (process_single_document examples.accepted "in" "docs/a.pdf"
                   examples.cfg_ok)
       = dict_set
           (extract_results_from_response resp (last_segment "/" "docs/a.pdf"))
           "s3_uri" (PStr (s3_uri_of "in" "docs/a.pdf"))
    /\ is_success
         (extract_results_from_response resp (last_segment "/" "docs/a.pdf"))
       = true.
Proof.
  apply (success_record_comes_from_a_successful_job examples.accepted "in"
           "docs/a.pdf" examples.cfg_ok).
  vm_compute. reflexivity.
Defined.

(** X22.  The table exported with metadata for a batch of at least one
    document always has the columns [s3_uri] and [processing_status], and has
    the column [error_message] exactly when the record of some document is not
    a success. *)
Theorem error_column_appears_with_a_failure (jobs : nat -> job)
  (documents : list string) (bucket : string) (cfg : config)
  (p : processing_section) (completion_order : list nat) :
  processing cfg = Some p ->
  0 < batch_size p ->
  Permutation completion_order (seq 0 (List.length documents)) ->
  documents <> [] ->
  exists results,
    process_documents_batch jobs documents bucket cfg completion_order
    = Ok results
    /\ In "s3_uri" (header (fst (export_results_to_csv results true)))
    /\ In "processing_status"
         (header (fst (export_results_to_csv results true)))
    /\ (In "error_message" (header (fst (export_results_to_csv results true)))
        <-> exists r, In r results /\ is_success r = false).
Proof.
  intros Hp Hsize Hperm Hne.
  pose proof (permutation_in_range _ _ Hperm) as Hrange.
  assert (Horder : completion_order <> []).
  { intros ->. apply Permutation_length in Hperm.
    rewrite length_seq in Hperm. destruct documents;
      [contradiction | discriminate]. }
  eexists. split;
    [apply (process_documents_batch_records _ _ _ _ p); assumption |].
  set (results := map (worker_record jobs documents bucket cfg)
                    completion_order).
  destruct (export_table results true) as [Hheader _].
  cbv zeta in Hheader. rewrite Hheader.
  assert (Hworker : forall r, In r results ->
            dict_has r "s3_uri" = true
            /\ dict_has r "processing_status" = true
            /\ (dict_has r "error_message" = true <-> is_success r = false)).
  { intros r Hr. apply in_map_iff in Hr as (i & <- & _).
    unfold worker_record.
    destruct (process_single_document_status (jobs i) bucket
                (nth i documents EmptyString) cfg) as (_ & Huri & Hstatus).
    cbv zeta in Huri, Hstatus. unfold dict_has at 1 2. rewrite Huri.
    split; [reflexivity |].
    destruct Hstatus as [[Hs He] | [Hs He]].
    - unfold is_success in Hs.
      destruct (dict_get _ "processing_status") as [v |] eqn:Hv;
        [| discriminate].
      split; [reflexivity |]. rewrite He. unfold is_success. rewrite Hv, Hs.
      split; discriminate.
    - rewrite Hs, He. unfold is_success. rewrite Hs.
      split; [reflexivity |]. split; reflexivity. }
  assert (Hsome : exists r, In r results).
  { subst results.
    destruct completion_order as [| i order]; [contradiction |].
    eexists. left. reflexivity. }
  assert (Hoccurs : forall col,
            occurs results col = true
            <-> exists r, In r results /\ dict_has r col = true).
  { intros col. unfold occurs. apply existsb_exists. }
  assert (Hin : forall col,
            In col (metadata_columns true) ->
            occurs results col = true ->
            In col (base_columns
                    ++ filter (occurs results) (metadata_columns true))).
  { intros col Hcol Hocc. apply in_or_app. right.
    apply filter_In. split; assumption. }
  destruct Hsome as [r0 Hr0].
  destruct (Hworker r0 Hr0) as (Huri0 & Hstatus0 & _).
  split; [| split].
  - apply Hin; [simpl; auto | apply Hoccurs; eauto].
  - apply Hin; [simpl; auto | apply Hoccurs; eauto].
  - split.
    + intros H. apply in_app_or in H as [H | H].
      * simpl in H. repeat (destruct H as [H | H]; [discriminate H |]).
        contradiction.
      * apply filter_In in H as [_ H]. apply Hoccurs in H as (r & Hr & Hhas).
        exists r. split; [assumption |]. apply (Hworker r Hr). assumption.
    + intros (r & Hr & Hfail). apply Hin; [simpl; auto |].
      apply Hoccurs. exists r. split; [assumption |].
      apply (Hworker r Hr). assumption.
Qed.

Lemma error_column_appears_with_a_failure_witness :
  exists results,
    process_documents_batch examples.second_rejected examples.three_documents
      "in" examples.cfg_ok [2; 0; 1]%nat = Ok results
    /\ In "s3_uri" (header (fst (export_results_to_csv results true)))
    /\ In "processing_status"
         (header (fst (export_results_to_csv results true)))
    /\ (In "error_message" (header (fst (export_results_to_csv results true)))
        <-> exists r, In r results /\ is_success r = false).
Proof.
  apply (error_column_appears_with_a_failure examples.second_rejected
           examples.three_documents "in" examples.cfg_ok
           {| batch_size := 2; poll_interval := 5; timeout := 300 |}
           [2; 0; 1]%nat).
  - reflexivity.
  - reflexivity.
  - apply perm_trans with [0; 2; 1]%nat; [apply perm_swap |].
    apply perm_skip, perm_swap.
  - discriminate.
Defined.

(** ** Waiting for a document processing job *)

Section JobRunner.

Variable get_document_processing_job
  : nat -> result job_runner.exn job_runner.response.
Variable job_identifier : string.
Variable poll_seconds : Z.

Lemma wait_turns_of_a_running_job (fuel : nat) :
  job_runner.sleep_error poll_seconds = None ->
  (forall k, exists r,
        get_document_processing_job k = Ok r /\ ended r = false) ->
  forall asked,
    job_runner.wait_turns fuel get_document_processing_job job_identifier
      poll_seconds asked = None.
Proof.
  intros Hsleep Hrun.
  induction fuel as [| fuel IH]; intros asked; [reflexivity |].
  cbn [job_runner.wait_turns].
  destruct (Hrun asked) as (r & -> & Hr). unfold ended in Hr.
  rewrite Hsleep, IH.
  destruct (job_runner.status (job_runner.job_of r)) as [s |];
    [| reflexivity].
  rewrite Hr. reflexivity.
Qed.

Lemma wait_turns_until_terminal (k : nat) (r : job_runner.response)
  (s : string) (d : nat) :
  job_runner.sleep_error poll_seconds = None ->
  (forall i, (i < k)%nat ->
             exists r', get_document_processing_job i = Ok r'
                        /\ ended r' = false) ->
  get_document_processing_job k = Ok r ->
  job_runner.status (job_runner.job_of r) = Some s ->
  In s job_runner.TERMINAL_STATES ->
  forall asked fuel,
    (asked + d)%nat = k ->
    (d < fuel)%nat ->
    job_runner.wait_turns fuel get_document_processing_job job_identifier
      poll_seconds asked
    = Some (conclusion job_identifier (job_runner.job_of r) s, S k).
Proof.
  intros Hsleep Hrun Hk Hs Hend.
  induction d as [| d IH]; intros asked fuel Hd Hfuel;
    (destruct fuel as [| fuel]; [lia |]); cbn [job_runner.wait_turns].
  - rewrite Nat.add_0_r in Hd. subst asked. rewrite Hk, Hs.
    unfold conclusion.
    replace (existsb (String.eqb s) job_runner.TERMINAL_STATES) with true.
    + destruct (String.eqb s "SUCCEEDED"); reflexivity.
    + symmetry. apply existsb_exists. exists s.
      split; [assumption | apply String.eqb_refl].
  - destruct (Hrun asked ltac:(lia)) as (r' & -> & Hr'). unfold ended in Hr'.
    rewrite Hsleep, (IH (S asked) fuel) by lia.
    destruct (job_runner.status (job_runner.job_of r')) as [s' |];
      [| reflexivity].
    rewrite Hr'. reflexivity.
Qed.

End JobRunner.

(** X23.  [_wait_for_completion] has no bound of its own: while the job stays
    out of the terminal states, no number of turns ends the call. *)
Theorem job_wait_never_gives_up
  (get_document_processing_job
   : nat -> result job_runner.exn job_runner.response)
  (job_identifier : string) (poll_seconds : Z) (fuel : nat) :
  job_runner.sleep_error poll_seconds = None ->
  (forall k, exists r,
        get_document_processing_job k = Ok r /\ ended r = false) ->
  job_runner._wait_for_completion fuel get_document_processing_job
    job_identifier poll_seconds = None.
Proof.
  intros Hsleep Hrun. unfold job_runner._wait_for_completion.
  apply wait_turns_of_a_running_job; assumption.
Qed.

Lemma job_wait_never_gives_up_witness :
  job_runner._wait_for_completion 1000 (fun _ => Ok (described "RUNNING"))
    "job-1" 15 = None.
Proof.
  apply (job_wait_never_gives_up (fun _ => Ok (described "RUNNING")) "job-1"
           15 1000).
  - reflexivity.
  - intros k. eexists. split; reflexivity.
Defined.

(** X24.  The call ends with the first status call that finds the job in a
    terminal state, after exactly that many calls: it returns the job when the
    state is SUCCEEDED, and raises [RuntimeError] with the state when it is
    FAILED or STOPPED. *)
Theorem job_wait_ends_at_the_first_terminal_state
  (get_document_processing_job
   : nat -> result job_runner.exn job_runner.response)
  (job_identifier : string) (poll_seconds : Z) (k : nat)
  (r : job_runner.response) (s : string) (fuel : nat) :
  job_runner.sleep_error poll_seconds = None ->
  (forall i, (i < k)%nat ->
             exists r', get_document_processing_job i = Ok r'
                        /\ ended r' = false) ->
  get_document_processing_job k = Ok r ->
  job_runner.status (job_runner.job_of r) = Some s ->
  In s job_runner.TERMINAL_STATES ->
  (k < fuel)%nat ->
  job_runner._wait_for_completion fuel get_document_processing_job
    job_identifier poll_seconds
  = Some (if String.eqb s "SUCCEEDED" then Ok (job_runner.job_of r)
          else Raise (job_runner.RuntimeError
                        ("Job " ++ job_identifier ++ " ended with status "
                         ++ s)%string),
          S k).
Proof.
  intros Hsleep Hrun Hk Hs Hend Hfuel. unfold job_runner._wait_for_completion.
  apply (wait_turns_until_terminal get_document_processing_job job_identifier
           poll_seconds k r s k); try assumption; reflexivity.
Qed.

Lemma job_wait_ends_at_the_first_terminal_state_witness :
  job_runner._wait_for_completion 5 (runs_then 2 "STOPPED") "job-1" 15
  = Some (if String.eqb "STOPPED" "SUCCEEDED"
          then Ok (job_runner.job_of (described "STOPPED"))
          else Raise (job_runner.RuntimeError
                        ("Job " ++ "job-1" ++ " ended with status "
                         ++ "STOPPED")%string),
          3%nat).
Proof.
  apply (job_wait_ends_at_the_first_terminal_state (runs_then 2 "STOPPED")
           "job-1" 15 2 (described "STOPPED") "STOPPED" 5).
  - reflexivity.
  - intros [| [| i]] Hi;
      [eexists; split; reflexivity | eexists; split; reflexivity | lia].
  - reflexivity.
  - reflexivity.
  - simpl. auto.
  - lia.
Defined.

(** ** Normalized records *)

Lemma join_cons (sep x : string) (parts : list string) :
  parts <> [] -> join sep (x :: parts) = (x ++ sep ++ join sep parts)%string.
Proof. destruct parts; [contradiction | reflexivity]. Qed.

Lemma join_app (sep : string) (a b : list string) :
  a <> [] -> b <> [] ->
  join sep (a ++ b)%list = (join sep a ++ sep ++ join sep b)%string.
Proof.
  intros Ha Hb. induction a as [| x a IH]; [contradiction |].
  destruct a as [| y a].
  - simpl app. apply join_cons. assumption.
  - change ((x :: y :: a) ++ b)%list with (x :: ((y :: a) ++ b))%list.
    rewrite join_cons by discriminate.
    rewrite IH by discriminate.
    rewrite (join_cons sep x (y :: a)) by discriminate.
    rewrite !append_assoc. reflexivity.
Qed.

Lemma nonempty_append (a b : string) :
  nonempty a = true -> nonempty (a ++ b)%string = true.
Proof. destruct a; [discriminate | reflexivity]. Qed.

Lemma nonempty_join (sep x : string) (parts : list string) :
  nonempty x = true -> nonempty (join sep (x :: parts)) = true.
Proof.
  intros H. destruct parts; [assumption |].
  rewrite join_cons by discriminate. apply nonempty_append. assumption.
Qed.

(** X25.  A list inside a list is normalized as if its items stood in the
    outer list: nesting leaves no trace in the cell. *)
Theorem nested_lists_are_flattened (py_repr : pyval -> string)
  (items rest : list pyval) (field_name : option string) :
  output._normalize_value py_repr (PList (PList items :: rest)) field_name
  = output._normalize_value py_repr (PList (items ++ rest)%list) field_name.
Proof.
  rewrite (_normalize_value_list py_repr (PList items :: rest)).
  rewrite (_normalize_value_list py_repr (items ++ rest)%list).
  rewrite map_app, filter_app. cbn [map filter].
  rewrite (_normalize_value_list py_repr items).
  set (normalize :=
         fun item => output._normalize_value py_repr item field_name).
  set (sep := output.join_rule field_name).
  assert (Hkept : Forall (fun s => nonempty s = true)
                    (filter nonempty (map normalize items))).
  { apply Forall_forall. intros s Hs. apply filter_In in Hs. apply Hs. }
  destruct (filter nonempty (map normalize items)) as [| x kept];
    [reflexivity |].
  inversion Hkept as [| ? ? Hx _]; subst.
  rewrite (nonempty_join sep x kept Hx).
  destruct (filter nonempty (map normalize rest)) as [| y others].
  - rewrite app_nil_r. reflexivity.
  - rewrite join_cons by discriminate.
    rewrite join_app by discriminate. reflexivity.
Qed.

(** X26.  The cell a record gives for a field is the normalized value the
    decoded object has under that key, joined by the rule of that field, and
    the empty string when the object has no such key. *)
Theorem cell_is_the_normalized_value (py_repr : pyval -> string) (d : dict)
  (field : string) :
  output.record_get (output._normalize_record py_repr d) field
  = match dict_get d field with
    | Some value => output._normalize_value py_repr value (Some field)
    | None => EmptyString
    end.
Proof.
  unfold output.record_get, output._normalize_record.
  induction d as [| [k v] d IH]; [reflexivity |].
  cbn [map find fst snd dict_get].
  destruct (String.eqb_spec k field) as [-> |]; [reflexivity | exact IH].
Qed.

(** X27.  An output location that does not start with [s3://] fails the
    pipeline before anything is listed or read: [build_csv] raises
    [ValueError], no file is written, and [main] exits with status 1. *)
Theorem invalid_output_uri_fails_the_pipeline (py_repr : pyval -> string)
  (s3 : output.s3_client) (output_s3_uri : string) (fieldnames : list string) :
  startswith "s3://" output_s3_uri = false ->
  output.build_csv py_repr s3 output_s3_uri fieldnames
  = Raise (output.ValueError ("Invalid S3 URI: " ++ output_s3_uri)%string)
  /\ output.main_after_job py_repr s3 output_s3_uri fieldnames = (1, None).
Proof.
  intros H.
  assert (Hbuild :
            output.build_csv py_repr s3 output_s3_uri fieldnames
            = Raise (output.ValueError
                       ("Invalid S3 URI: " ++ output_s3_uri)%string)).
  { unfold output.build_csv, output._iter_job_records, output._split_s3_uri.
    rewrite H. reflexivity. }
  split; [assumption |].
  unfold output.main_after_job. rewrite Hbuild. reflexivity.
Qed.

Lemma invalid_output_uri_fails_the_pipeline_witness :
  output.build_csv (fun _ => EmptyString) examples.clean_store "out/results/"
    ["Language"]
  = Raise (output.ValueError ("Invalid S3 URI: " ++ "out/results/")%string)
  /\ output.main_after_job (fun _ => EmptyString) examples.clean_store
       "out/results/" ["Language"] = (1, None).
Proof.
  apply (invalid_output_uri_fails_the_pipeline (fun _ => EmptyString)
           examples.clean_store "out/results/" ["Language"]).
  reflexivity.
Defined.

(** ** Starting a job *)

(** X28.  [start_job] polls under the first of [id], [jobId] and [name] that
    the start response sets, and ends as the wait under that identifier does:
    with the job of the first status call that finds a terminal state when
    that state is SUCCEEDED, with [RuntimeError] when it is FAILED or STOPPED.
    The job returned is the one the status call described, not the one of the
    start response. *)
Theorem start_job_waits_under_the_first_identifier
  (py_repr_job : job_runner.job_info -> string) (fuel : nat)
  (started : job_runner.response)
  (get_document_processing_job
   : string -> nat -> result job_runner.exn job_runner.response)
  (job_identifier : string) (k : nat) (r : job_runner.response) (s : string) :
  job_runner.job_identifier_of (job_runner.job_of started)
  = Some job_identifier ->
  (forall i, (i < k)%nat ->
             exists r', get_document_processing_job job_identifier i = Ok r'
                        /\ ended r' = false) ->
  get_document_processing_job job_identifier k = Ok r ->
  job_runner.status (job_runner.job_of r) = Some s ->
  In s job_runner.TERMINAL_STATES ->
  (k < fuel)%nat ->
  job_runner.start_job py_repr_job fuel (Ok started)
    get_document_processing_job
  = Some (if String.eqb s "SUCCEEDED" then Ok (job_runner.job_of r)
          else Raise (job_runner.RuntimeError
                        ("Job " ++ job_identifier ++ " ended with status "
                         ++ s)),
          S k).
Proof.
  intros Hid Hrun Hk Hs Hend Hfuel. unfold job_runner.start_job.
  rewrite Hid. unfold job_runner._wait_for_completion.
  apply (wait_turns_until_terminal (get_document_processing_job job_identifier)
           job_identifier 15 k r s k); try assumption; reflexivity.
Qed.

Lemma start_job_waits_under_the_first_identifier_witness :
  job_runner.start_job (fun _ => EmptyString) 5 (Ok (described "CREATED"))
    (fun _ => runs_then 2 "SUCCEEDED")
  = Some (if String.eqb "SUCCEEDED" "SUCCEEDED"
          then Ok (job_runner.job_of (described "SUCCEEDED"))
          else Raise (job_runner.RuntimeError
                        ("Job " ++ "job-1" ++ " ended with status "
                         ++ "SUCCEEDED")),
          3%nat).
Proof.
  apply (start_job_waits_under_the_first_identifier (fun _ => EmptyString) 5
           (described "CREATED") (fun _ => runs_then 2 "SUCCEEDED") "job-1" 2
           (described "SUCCEEDED") "SUCCEEDED").
  - reflexivity.
  - intros [| [| i]] Hi;
      [eexists; split; reflexivity | eexists; split; reflexivity | lia].
  - reflexivity.
  - reflexivity.
  - simpl. auto.
  - lia.
Defined.

(** X29.  A start response whose job has no [id], [jobId] or [name], or only
    empty ones, raises [RuntimeError] before any status call. *)
Theorem start_job_needs_an_identifier
  (py_repr_job : job_runner.job_info -> string) (fuel : nat)
  (started : job_runner.response)
  (get_document_processing_job
   : string -> nat -> result job_runner.exn job_runner.response) :
  (forall s,
      In (Some s) [job_runner.id (job_runner.job_of started);
                   job_runner.jobId (job_runner.job_of started);
                   job_runner.name (job_runner.job_of started)] ->
      s = EmptyString) ->
  job_runner.start_job py_repr_job fuel (Ok started)
    get_document_processing_job
  = Some (Raise (job_runner.RuntimeError
                   ("Unable to determine job identifier from response: "
                    ++ py_repr_job (job_runner.job_of started))),
          0%nat).
Proof.
  intros H. unfold job_runner.start_job, job_runner.job_identifier_of.
  assert (Hunset : forall v,
             In v [job_runner.id (job_runner.job_of started);
                   job_runner.jobId (job_runner.job_of started);
                   job_runner.name (job_runner.job_of started)] ->
             match v with Some s => nonempty s | None => false end = false).
  { intros [s |] Hv; [| reflexivity]. rewrite (H s Hv). reflexivity. }
  rewrite !Hunset by (simpl; auto). reflexivity.
Qed.

Lemma start_job_needs_an_identifier_witness :
  job_runner.start_job (fun _ => "{}") 5
    (Ok {| job_runner.job := None;
           job_runner.itself :=
             {| job_runner.id := None; job_runner.jobId := Some EmptyString;
                job_runner.name := None; job_runner.status := None |} |})
    (fun _ => runs_then 2 "SUCCEEDED")
  = Some (Raise (job_runner.RuntimeError
                   ("Unable to determine job identifier from response: "
                    ++ "{}")),
          0%nat).
Proof.
  apply (start_job_needs_an_identifier (fun _ => "{}") 5
           {| job_runner.job := None;
              job_runner.itself :=
                {| job_runner.id := None; job_runner.jobId := Some EmptyString;
                   job_runner.name := None; job_runner.status := None |} |}
           (fun _ => runs_then 2 "SUCCEEDED")).
  intros s [H | [H | [H | []]]]; inversion H; reflexivity.
Defined.

(** ** Where the output of a document goes *)

(** X30.  The output location sent with a document is the folder of the
    document followed by [output/]: the documents of one folder share it,
    whatever their names. *)
Theorem documents_of_a_folder_share_their_output
  (bucket folder name : string) :
  contains "/" name = false ->
  output_configuration_s3_uri (s3_uri_of bucket (folder ++ "/" ++ name))
  = s3_uri_of bucket (folder ++ "/output/")
  /\ output_configuration_s3_uri (s3_uri_of bucket name)
     = s3_uri_of bucket "output/".
Proof.
  intros H. unfold output_configuration_s3_uri, s3_uri_of. split.
  - change ("s3://" ++ bucket ++ "/" ++ folder ++ "/" ++ name)
      with ("s3://" ++ (bucket ++ ("/" ++ (folder ++ String "/" name)))).
    rewrite <- !append_assoc, (rsplit_once_join _ _ _ H). cbn [fst].
    rewrite !append_assoc. reflexivity.
  - change ("s3://" ++ bucket ++ "/" ++ name)
      with ("s3://" ++ (bucket ++ String "/" name)).
    rewrite <- !append_assoc, (rsplit_once_join _ _ _ H). cbn [fst].
    rewrite !append_assoc. reflexivity.
Qed.

Lemma documents_of_a_folder_share_their_output_witness :
  output_configuration_s3_uri (s3_uri_of "in" ("docs" ++ "/" ++ "a.pdf"))
  = s3_uri_of "in" ("docs" ++ "/output/")
  /\ output_configuration_s3_uri (s3_uri_of "in" "a.pdf")
     = s3_uri_of "in" "output/".
Proof.
  apply (documents_of_a_folder_share_their_output "in" "docs" "a.pdf").
  reflexivity.
Defined.

